(** * bap-ida-python: [plugins/bap/utils/run.py]

    A shallow embedding of the two functions of [bap.utils.run],
    [check_and_configure_bap] and [run_bap_with], together with the
    properties stated about them.

    The Python code talks to four collaborators: the configuration store
    ([bap.utils.config]), the discovery probes ([subprocess.check_output]
    of [which] and [opam]), the dialogs of the host ([idaapi.askfile_c],
    [idaapi.askyn_c]) and the host's exec / export / view facilities
    ([idc.Exec], [ida.dump_symbol_info], ...).  The store is a finite map
    that is passed through the calls; what the outside world answers is
    collected in a record given to each call; what the code does to the
    outside world is recorded as a list of events, in program order. *)

From Stdlib Require Import Ascii String List Bool Arith Lia.
From stdpp Require Import base option list strings gmap.

Local Open Scope char_scope.
Local Open Scope stdpp_scope.

(** ** Python [str] operations used by the module *)

Module PyStr.

(** The characters of a string, in order. *)
Definition chars (s : string) : list ascii := String.list_ascii_of_string s.
Definition of_chars (l : list ascii) : string := String.string_of_list_ascii l.

(** [string.whitespace] of Python 2: space, tab, newline, return,
    vertical tab and form feed. *)
Definition is_space (c : ascii) : bool :=
  let n := nat_of_ascii c in
  Nat.eqb n 32 || (Nat.leb 9 n && Nat.leb n 13).

Fixpoint lstrip_chars (l : list ascii) : list ascii :=
  match l with
  | [] => []
  | c :: l' => if is_space c then lstrip_chars l' else l
  end.

(** [s.strip()] *)
Definition strip (s : string) : string :=
  of_chars (rev (lstrip_chars (rev (lstrip_chars (chars s))))).

(** [s.endswith(suf)] *)
Definition endswith (s suf : string) : bool :=
  let l := chars s in
  let k := chars suf in
  bool_decide (drop (length l - length k) l = k).

(** [s.lower()] on an 8-bit string in the C locale: only [A]..[Z] move. *)
Definition lower_char (c : ascii) : ascii :=
  let n := nat_of_ascii c in
  if Nat.leb 65 n && Nat.leb n 90 then ascii_of_nat (n + 32) else c.

Fixpoint lower (s : string) : string :=
  match s with
  | EmptyString => EmptyString
  | String c s' => String (lower_char c) (lower s')
  end.

(** [l] starts with [p]. *)
Fixpoint starts (p l : list ascii) : bool :=
  match p, l with
  | [], _ => true
  | _ :: _, [] => false
  | a :: p', b :: l' => bool_decide (a = b) && starts p' l'
  end.

Fixpoint occurs (p l : list ascii) : bool :=
  starts p l ||
  match l with
  | [] => false
  | _ :: l' => occurs p l'
  end.

(** [sub in s] *)
Definition contains (s sub : string) : bool := occurs (chars sub) (chars s).

(** [os.path.join(a, b)] of [posixpath] for a relative [b]: [b] itself
    when [a] is empty, no separator added when [a] already ends with one. *)
Definition path_join (a b : string) : string :=
  if bool_decide (a = EmptyString) || endswith a "/" then a +:+ b
  else a +:+ "/" +:+ b.

(** [s.split('--')]: the pieces between the non-overlapping occurrences
    of two dashes, scanning from the left; [cur] holds the characters of
    the current piece, last one first. *)
Fixpoint split_dashes_go (cur : list ascii) (l : list ascii) : list string :=
  match l with
  | [] => [of_chars (rev cur)]
  | c :: l' =>
      match l' with
      | d :: l'' =>
          if bool_decide (c = "-"%char) && bool_decide (d = "-"%char)
          then of_chars (rev cur) :: split_dashes_go [] l''
          else split_dashes_go (c :: cur) l'
      | [] => split_dashes_go (c :: cur) l'
      end
  end.

Definition split_dashes (s : string) : list string :=
  split_dashes_go [] (chars s).

(** [sep.join(pieces)] *)
Fixpoint join (sep : string) (pieces : list string) : string :=
  match pieces with
  | [] => EmptyString
  | [p] => p
  | p :: rest => p +:+ sep +:+ join sep rest
  end.

(** [n] blanks. *)
Fixpoint blanks (n : nat) : string :=
  match n with
  | O => EmptyString
  | S n' => String " "%char (blanks n')
  end.

(** A value between double quotes, as the templates write it. *)
Definition dquote : string := String "034"%char EmptyString.
Definition quoted (s : string) : string := dquote +:+ s +:+ dquote.

End PyStr.

(** ** The configuration store *)

Module Config.

(** Modelled from the spec: the module [bap.utils.config] is not part of
    the sources at hand.  Its interface is the one of section 6,
    [get(key, section=default, default=None)] and
    [set(key, value, section=default)], over "a mapping from (section, key)
    to string value".  A section is [Some name], or [None] for the default
    (unnamed) one; an absent entry is Python's [None]. *)
Abbreviation store := (gmap (option string * string) string).

(** Modelled from the spec: [config.get], absent from the sources; the
    stored value when there is one, [default] otherwise. *)
Definition get (key : string) (default : option string)
  (section : option string) (c : store) : option string :=
  match c !! (section, key) with
  | Some v => Some v
  | None => default
  end.

(** Modelled from the spec: [config.get] called with a string for
    [default]; the answer is then a string. *)
Definition get_or (key default : string) (section : option string)
  (c : store) : string :=
  match c !! (section, key) with
  | Some v => v
  | None => default
  end.

(** Modelled from the spec: [config.set], absent from the sources; the
    entry is written, the others are left as they are. *)
Definition set (key value : string) (section : option string)
  (c : store) : store :=
  <[(section, key) := value]> c.

End Config.

(** ** The outside world *)

(** What [subprocess.check_output] can do: hand back the standard output
    of a command that exited with status 0, raise [OSError] when the
    command cannot be started, raise [CalledProcessError] when it exits
    with another status. *)
Inductive exn := OSError | CalledProcessError.

Inductive probe_result :=
| Output (out : string)
| Fails (e : exn).

(** The buttons of [idaapi.askyn_c]. *)
Inductive button := ASKBTN_YES | ASKBTN_NO | ASKBTN_CANCEL.

#[global] Instance button_eq_dec : EqDecision button.
Proof. solve_decision. Defined.

#[global] Instance exn_eq_dec : EqDecision exn.
Proof. solve_decision. Defined.

(** Everything the two functions ask of their surroundings.  The answers
    of the user are two queues, one per dialog, consumed from the front:
    [file_replies] for [askfile_c] ([None] when the dialog is dismissed),
    [yn_replies] for [askyn_c]. *)
Record world := World {
  which_bap : probe_result;           (* check_output(['which', 'bap']) *)
  opam_bap_bin : probe_result;        (* check_output(['opam', 'config', 'var', 'bap:bin']) *)
  isfile : string -> bool;            (* os.path.isfile *)
  file_replies : list (option string);
  yn_replies : list button;
  tmp_out : string;                   (* mkstemp(suffix='.out', prefix='ida-bap-')[1] *)
  tmp_sym : string;                   (* mkstemp(suffix='.sym', prefix='ida-bap-')[1] *)
  tmp_hdr : string;                   (* mkstemp(suffix='.h', prefix='ida-bap-')[1] *)
  input_file : string;                (* idc.GetInputFilePath() *)
  out_text : string;                  (* what is read back from the output file *)
  view_open : bool                    (* idaapi.find_tform("BAP View") finds a form *)
}.

(** What the code does, in program order. *)
Inductive event :=
| CheckOutput (argv : list string)
| IsFile (path : string)
| AskFile (default title : string)
| AskYN (msg : string)
| Mkstemp (suffix prefix : string)
| GetInputFilePath
| DumpSymbolInfo (path : string)
| DumpCHeader (path : string)
| Exec (command : string)
| ReadFile (path : string)
| ViewUpdate (text : string)
| FindTform (title : string)
| CloseTform.

(** How a call ends: it returns, an exception leaves it, or it sits in a
    dialog for which the user has no answer left. *)
Inductive outcome (A : Type) :=
| Returned (a : A)
| Raised (e : exn)
| Waiting.

Arguments Returned {A} a.
Arguments Raised {A} e.
Arguments Waiting {A}.

(** ** [check_and_configure_bap] *)

Module Resolver.
Import PyStr.

Definition path_key : string := "bap_executable_path".
Definition enabled_key : string := "enabled".
Definition api_section : option string := Some "bap_api".

Definition which_argv : list string := ["which"; "bap"].
Definition opam_argv : list string := ["opam"; "config"; "var"; "bap:bin"].

(** Line 38: a suggestion that does not end with [bap] is dropped. *)
Definition plausible (default_bap_path : string) : string :=
  if endswith default_bap_path "bap" then default_bap_path else EmptyString.

(** Lines 21 to 39.  The handler around [which] catches both exceptions,
    the one around [opam] catches [OSError] only. *)
Definition discover (w : world) : list event * outcome string :=
  match which_bap w with
  | Output out => ([CheckOutput which_argv], Returned (plausible (strip out)))
  | Fails _ =>
      let tr := [CheckOutput which_argv; CheckOutput opam_argv] in
      match opam_bap_bin w with
      | Output out => (tr, Returned (plausible (path_join (strip out) "bap")))
      | Fails OSError => (tr, Returned (plausible EmptyString))
      | Fails CalledProcessError => (tr, Raised CalledProcessError)
      end
  end.

Definition msg_unset : string := "Are you sure you don't want to set path?".
Definition msg_suffix : string := "Path does not end with bap. Confirm?".
Definition msg_isfile : string := "Path does not point to a file. Confirm?".

(** [confirm(msg)]: the next answer of [askyn_c] compared with
    [ASKBTN_YES]; [None] when the user has no answer left. *)
Definition confirm (yns : list button) : option (bool * list button) :=
  match yns with
  | [] => None
  | b :: rest => Some (bool_decide (b = ASKBTN_YES), rest)
  end.

(** A soft validation: nothing is asked when the test passes; otherwise
    the user decides whether to go on. *)
Definition soft_check (passes : bool) (msg : string) (yns : list button)
  : list event * option bool * list button :=
  if passes then ([], Some true, yns)
  else match confirm yns with
       | None => ([AskYN msg], None, yns)
       | Some (yes, rest) => ([AskYN msg], Some yes, rest)
       end.

(** How one round of the [while True] loop ends. *)
Inductive step :=
| Break (bap_path : string)
| Continue
| Return
| Block.

(** Lines 47 to 58, for the answer [bap_path] of [askfile_c]. *)
Definition loop_body (w : world) (bap_path : option string)
  (yns : list button) : list event * step * list button :=
  match bap_path with
  | None =>
      match confirm yns with
      | None => ([AskYN msg_unset], Block, yns)
      | Some (true, rest) => ([AskYN msg_unset], Return, rest)
      | Some (false, rest) => ([AskYN msg_unset], Continue, rest)
      end
  | Some p =>
      match soft_check (endswith p "bap") msg_suffix yns with
      | (e1, None, y1) => (e1, Block, y1)
      | (e1, Some false, y1) => (e1, Continue, y1)
      | (e1, Some true, y1) =>
          match soft_check (isfile w p) msg_isfile y1 with
          | (e2, None, y2) => (e1 ++ IsFile p :: e2, Block, y2)
          | (e2, Some false, y2) => (e1 ++ IsFile p :: e2, Continue, y2)
          | (e2, Some true, y2) => (e1 ++ IsFile p :: e2, Break p, y2)
          end
      end
  end.

(** How the loop ends. *)
Inductive loop_end :=
| Chosen (bap_path : string)
| Declined
| Unanswered.

(** Lines 45 to 58.  Each round takes one answer of [askfile_c], so the
    loop is a recursion on that queue. *)
Fixpoint ask_loop (w : world) (default_bap_path : string)
  (files : list (option string)) (yns : list button)
  : list event * loop_end :=
  let ask := AskFile default_bap_path "Path to bap" in
  match files with
  | [] => ([ask], Unanswered)
  | bap_path :: files' =>
      match loop_body w bap_path yns with
      | (tr, Break p, _) => (ask :: tr, Chosen p)
      | (tr, Return, _) => (ask :: tr, Declined)
      | (tr, Block, _) => (ask :: tr, Unanswered)
      | (tr, Continue, yns') =>
          let '(tr', e) := ask_loop w default_bap_path files' yns' in
          (ask :: tr ++ tr', e)
      end
  end.

(** Lines 18 to 60. *)
Definition config_path (w : world) (c : Config.store) : list event * outcome Config.store :=
  match Config.get path_key None None c with
  | Some _ => ([], Returned c)
  | None =>
      match discover w with
      | (tr, Returned default_bap_path) =>
          match ask_loop w default_bap_path (file_replies w) (yn_replies w) with
          | (tr', Chosen bap_path) =>
              (tr ++ tr', Returned (Config.set path_key bap_path None c))
          | (tr', Declined) => (tr ++ tr', Returned c)
          | (tr', Unanswered) => (tr ++ tr', Waiting)
          end
      | (tr, Raised e) => (tr, Raised e)
      | (tr, Waiting) => (tr, Waiting)
      end
  end.

(** Lines 62 to 64. *)
Definition config_bap_api (c : Config.store) : Config.store :=
  match Config.get enabled_key None api_section c with
  | None => Config.set enabled_key "1" api_section c
  | Some _ => c
  end.

(** Lines 66 and 67. *)
Definition check_and_configure_bap (w : world) (c : Config.store)
  : list event * outcome Config.store :=
  match config_path w c with
  | (tr, Returned c') => (tr, Returned (config_bap_api c'))
  | (tr, Raised e) => (tr, Raised e)
  | (tr, Waiting) => (tr, Waiting)
  end.

End Resolver.

(** ** [run_bap_with] *)

Module Run.
Import PyStr.
Export Resolver.

(** The dictionary [args] of lines 94 to 103. *)
Record run_args := RunArgs {
  bap_executable_path : string;
  bap_output_file : string;
  input_file_path : string;
  symbol_file_location : string;
  header_path : string;
  remaining_args : string
}.

(** The templates.  A backslash at the end of a line inside a Python
    string literal removes the line break and nothing else, so the
    indentation of the next line is part of the string. *)

(** Lines 107 to 113. *)
Definition minimal_command (a : run_args) : string :=
  blanks 12 +:+ quoted (bap_executable_path a) +:+ " "
    +:+ quoted (input_file_path a) +:+ " "
  +:+ blanks 12 +:+ remaining_args a +:+ " "
  +:+ blanks 12 +:+ "> " +:+ quoted (bap_output_file a) +:+ " 2>&1 "
  +:+ blanks 12.

(** Lines 126 to 131. *)
Definition api_add_command (a : run_args) : string :=
  blanks 16 +:+ quoted (bap_executable_path a) +:+ " "
  +:+ blanks 16 +:+ "--api-add=c:" +:+ quoted (header_path a) +:+ " "
  +:+ blanks 16.

(** Lines 133 to 142. *)
Definition full_command (a : run_args) : string :=
  blanks 12 +:+ quoted (bap_executable_path a) +:+ " "
    +:+ quoted (input_file_path a) +:+ " "
  +:+ blanks 12 +:+ "--read-symbols-from=" +:+ quoted (symbol_file_location a)
    +:+ " "
  +:+ blanks 12 +:+ "--symbolizer=file "
  +:+ blanks 12 +:+ "--rooter=file "
  +:+ blanks 12 +:+ remaining_args a +:+ " "
  +:+ blanks 12 +:+ "-d > " +:+ quoted (bap_output_file a) +:+ " 2>&1 "
  +:+ blanks 12.

(** Lines 173 to 178. *)
Definition api_remove_command (a : run_args) : string :=
  blanks 16 +:+ quoted (bap_executable_path a) +:+ " "
  +:+ blanks 16 +:+ "--api-remove=c:`basename " +:+ quoted (header_path a)
    +:+ "` "
  +:+ blanks 16.

(** Lines 179 to 186. *)
Definition cleanup_command (a : run_args) : string :=
  blanks 8 +:+ "rm -f "
  +:+ blanks 12 +:+ quoted (symbol_file_location a) +:+ " "
  +:+ blanks 12 +:+ quoted (header_path a) +:+ " "
  +:+ blanks 12 +:+ quoted (bap_output_file a) +:+ " "
  +:+ blanks 8.

Definition nl : string := String "010"%char EmptyString.

(** The text of lines 148 to 157. *)
Definition report (command output : string) : string :=
  "BAP execution string" +:+ nl
  +:+ "--------------------" +:+ nl
  +:+ nl
  +:+ join (nl +:+ "    --") (split_dashes (strip command))
  +:+ nl
  +:+ nl
  +:+ "Output" +:+ nl
  +:+ "------" +:+ nl
  +:+ nl
  +:+ output.

(** Lines 117 to 120. *)
Definition bap_api_enabled (c : Config.store) : bool :=
  bool_decide
    (lower (Config.get_or enabled_key "0" api_section c) ∈ ["1"; "true"; "yes"]).

(** Lines 94 to 103: the temporary files are the ones [mkstemp] hands
    out, the input file the one the host has open. *)
Definition make_args (w : world) (exe argument_string : string) : run_args :=
  {| bap_executable_path := exe;
     bap_output_file := tmp_out w;
     input_file_path := input_file w;
     symbol_file_location := tmp_sym w;
     header_path := tmp_hdr w;
     remaining_args := argument_string |}.

(** Lines 94 to 186, once the executable path is known. *)
Definition staged_run (w : world) (c : Config.store) (exe : string)
  (argument_string : string) (no_extras : bool) : list event :=
  let args := make_args w exe argument_string in
  let staging :=
    [Mkstemp ".out" "ida-bap-"; GetInputFilePath;
     Mkstemp ".sym" "ida-bap-"; Mkstemp ".h" "ida-bap-"] in
  let '(prepare, command) :=
    if no_extras then ([], minimal_command args)
    else
      (DumpSymbolInfo (symbol_file_location args)
         :: (if bap_api_enabled c
             then [DumpCHeader (header_path args); Exec (api_add_command args)]
             else []),
       full_command args) in
  let show :=
    [Exec command; ReadFile (bap_output_file args);
     ViewUpdate (report command (out_text w)); FindTform "BAP View"]
    ++ (if view_open w then [CloseTform] else []) in
  let unregister :=
    if no_extras then []
    else if bap_api_enabled c then [Exec (api_remove_command args)] else [] in
  staging ++ prepare ++ show ++ unregister ++ [Exec (cleanup_command args)].

(** Lines 89 to 186. *)
Definition run_bap_with (w : world) (c : Config.store)
  (argument_string : string) (no_extras : bool)
  : list event * outcome Config.store :=
  match check_and_configure_bap w c with
  | (tr, Returned c') =>
      match Config.get path_key None None c' with
      | None => (tr, Returned c')
      | Some exe =>
          (tr ++ staged_run w c' exe argument_string no_extras, Returned c')
      end
  | (tr, Raised e) => (tr, Raised e)
  | (tr, Waiting) => (tr, Waiting)
  end.

End Run.

(** * Vocabulary of the properties *)

Import PyStr Run.

(** ** Kinds of events *)

(** A dialog with the user; a look at the surroundings that changes
    nothing (the output of a locator command, a file test, a lookup in the
    host); or a change made outside the store. *)
Inductive effect_class := Dialog | Observation | Mutation.

Definition classify (e : event) : effect_class :=
  match e with
  | AskFile _ _ | AskYN _ => Dialog
  | CheckOutput _ | IsFile _ | GetInputFilePath | ReadFile _ | FindTform _ =>
      Observation
  | Mkstemp _ _ | DumpSymbolInfo _ | DumpCHeader _ | Exec _ | ViewUpdate _
  | CloseTform => Mutation
  end.

Definition is_probe (e : event) : bool :=
  match e with CheckOutput _ => true | _ => false end.

Definition is_exec (e : event) : bool :=
  match e with Exec _ => true | _ => false end.

Definition is_mkstemp (e : event) : bool :=
  match e with Mkstemp _ _ => true | _ => false end.

(** A process is started by [check_output] and by [idc.Exec]. *)
Definition is_subprocess (e : event) : bool := is_probe e || is_exec e.

(** What the resolver can do outside the store: the two probes, the file
    test and the two dialogs. *)
Definition resolver_event (e : event) : Prop :=
  match e with
  | CheckOutput argv => argv = which_argv ∨ argv = opam_argv
  | IsFile _ | AskFile _ _ | AskYN _ => True
  | _ => False
  end.

(** A command whose first word is [rm]: the removal of the temporary
    files. *)
Definition is_removal (e : event) : bool :=
  match e with
  | Exec command => starts (chars "rm ") (lstrip_chars (chars command))
  | _ => false
  end.

(** The three options the full template adds to the command line. *)
Definition extra_flags : list string :=
  ["--read-symbols-from"; "--symbolizer"; "--rooter"].

(** [c] is none of the characters of [p]. *)
Definition avoids (p : list ascii) (c : ascii) : bool :=
  forallb (λ x, negb (bool_decide (x = c))) p.

(** The characters the minimal template is written with, the
    placeholders apart: blank, double quote and those of [> ... 2>&1]. *)
Definition template_chars : list ascii :=
  [" "; "034"; ">"; "2"; "&"; "1"]%char.

(** Two strings that split into the same words at white space, whatever
    word is being read when they start. *)
Definition same_words (r1 r2 : string) : Prop :=
  ∀ cur, String.words_go cur r1 = String.words_go cur r2.

(** The minimal command as it is usually written down, with single blanks:
    ["<exe>" "<input>" <arguments> > "<out>" 2>&1]. *)
Definition plain_minimal_command (a : run_args) : string :=
  quoted (bap_executable_path a) +:+ " " +:+ quoted (input_file_path a)
  +:+ " " +:+ remaining_args a
  +:+ " > " +:+ quoted (bap_output_file a) +:+ " 2>&1".

(** A path that passes both soft validations of lines 52 to 57. *)
Definition valid_path (w : world) (p : string) : bool :=
  endswith p "bap" && isfile w p.

(** The events of the round of the dialog loop in which [p] is accepted:
    the file dialog, the question about the name when [p] does not end
    with [bap], the file test, the question about the file when [p] is
    not one. *)
Definition accepting_round (w : world) (default_bap_path p : string)
  : list event :=
  AskFile default_bap_path "Path to bap"
  :: (if endswith p "bap" then [] else [AskYN msg_suffix])
  ++ IsFile p
  :: (if isfile w p then [] else [AskYN msg_isfile]).

(** The work a run hands to the host and to the shell: the two exports
    and the commands. *)
Definition is_work (e : event) : bool :=
  match e with
  | DumpSymbolInfo _ | DumpCHeader _ | Exec _ => true
  | _ => false
  end.

(** ** Some surroundings to run the code in *)

(** [bap] is not on the path, there is no [opam]; the user dismisses the
    file dialog, does not confirm at first, dismisses it again and then
    confirms. *)
Definition declining_world : world :=
  {| which_bap := Fails CalledProcessError;
     opam_bap_bin := Fails OSError;
     isfile := λ _, false;
     file_replies := [None; None];
     yn_replies := [ASKBTN_NO; ASKBTN_YES];
     tmp_out := "/tmp/ida-bap-a.out";
     tmp_sym := "/tmp/ida-bap-b.sym";
     tmp_hdr := "/tmp/ida-bap-c.h";
     input_file := "/bin/ls";
     out_text := EmptyString;
     view_open := false |}.

(** [bap] is not on the path; [opam] is installed but knows no variable
    [bap:bin] and exits with an error status. *)
Definition opam_without_bap_world : world :=
  {| which_bap := Fails CalledProcessError;
     opam_bap_bin := Fails CalledProcessError;
     isfile := λ _, true;
     file_replies := [Some "/usr/bin/bap"];
     yn_replies := [];
     tmp_out := "/tmp/ida-bap-a.out";
     tmp_sym := "/tmp/ida-bap-b.sym";
     tmp_hdr := "/tmp/ida-bap-c.h";
     input_file := "/bin/ls";
     out_text := EmptyString;
     view_open := false |}.

(** [which] finds [bap]; the user accepts the suggestion. *)
Definition accepting_world : world :=
  {| which_bap := Output ("/usr/bin/bap" +:+ nl);
     opam_bap_bin := Fails OSError;
     isfile := λ p, bool_decide (p = "/usr/bin/bap");
     file_replies := [Some "/usr/bin/bap"];
     yn_replies := [];
     tmp_out := "/tmp/ida-bap-a.out";
     tmp_sym := "/tmp/ida-bap-b.sym";
     tmp_hdr := "/tmp/ida-bap-c.h";
     input_file := "/bin/ls";
     out_text := "done";
     view_open := true |}.

(** Stores: nothing set; the path set; the path set and the API switched
    off by hand. *)
Definition path_store : Config.store :=
  Config.set path_key "/usr/bin/bap" None ∅.

Definition api_off_store : Config.store :=
  Config.set enabled_key "No" api_section path_store.

(** [bap] is not on the path and [opam] is not installed; apart from
    that the surroundings of [opam_without_bap_world]. *)
Definition opam_missing_world : world :=
  {| which_bap := Fails CalledProcessError;
     opam_bap_bin := Fails OSError;
     isfile := λ _, true;
     file_replies := [Some "/usr/bin/bap"];
     yn_replies := [];
     tmp_out := "/tmp/ida-bap-a.out";
     tmp_sym := "/tmp/ida-bap-b.sym";
     tmp_hdr := "/tmp/ida-bap-c.h";
     input_file := "/bin/ls";
     out_text := EmptyString;
     view_open := false |}.

(** No probe finds [bap].  The user dismisses the file dialog and
    cancels the question that follows, then gives a path that does not
    end with [bap] and answers NO to the question about it, then gives
    the path of the executable. *)
Definition hesitant_world : world :=
  {| which_bap := Fails OSError;
     opam_bap_bin := Fails OSError;
     isfile := λ p, bool_decide (p = "/usr/bin/bap");
     file_replies := [None; Some "/opt/x"; Some "/usr/bin/bap"];
     yn_replies := [ASKBTN_CANCEL; ASKBTN_NO];
     tmp_out := "/tmp/ida-bap-a.out";
     tmp_sym := "/tmp/ida-bap-b.sym";
     tmp_hdr := "/tmp/ida-bap-c.h";
     input_file := "/bin/ls";
     out_text := EmptyString;
     view_open := false |}.

(** The store a pass of the resolver leaves behind.  The two writes are
    the last things the pass does (lines 60 and 64): a pass that an
    exception leaves, or that stays in a dialog, has written nothing, and
    the store is the one it started from. *)
Definition store_after (c : Config.store) (o : outcome Config.store)
  : Config.store :=
  match o with
  | Returned c' => c'
  | Raised _ | Waiting => c
  end.

(** * Properties *)

(** ** Strings *)

Lemma chars_app (a b : string) : chars (a +:+ b) = chars a ++ chars b.
Proof.
  unfold chars. induction a as [|x a IH]; simpl; [done|]. by f_equal.
Qed.

Lemma str_app_cons x (a b : string) : String x a +:+ b = String x (a +:+ b).
Proof. reflexivity. Qed.

Lemma str_app_assoc (a b c : string) : (a +:+ b) +:+ c = a +:+ b +:+ c.
Proof.
  induction a as [|x a IH]; [done|]. rewrite !str_app_cons. by f_equal.
Qed.

(** ** The store *)

Section StoreFacts.
Context (c : Config.store).

Lemma get_set_same key value section :
  Config.get key None section (Config.set key value section c) = Some value.
Proof. unfold Config.get, Config.set. by rewrite lookup_insert_eq. Qed.

Lemma get_set_other key key' value section section' :
  (section, key) ≠ (section', key') →
  Config.get key' None section' (Config.set key value section c)
  = Config.get key' None section' c.
Proof.
  intros Hne. unfold Config.get, Config.set.
  by rewrite lookup_insert_ne.
Qed.


Lemma get_or_absent key section default :
  Config.get key None section c = None →
  Config.get_or key default section c = default.
Proof.
  unfold Config.get, Config.get_or.
  destruct (c !! (section, key)); congruence.
Qed.

End StoreFacts.

(** ** [config_bap_api] *)

Lemma config_bap_api_enabled (c : Config.store) :
  Config.get enabled_key None api_section (config_bap_api c)
  = match Config.get enabled_key None api_section c with
    | None => Some "1"
    | Some v => Some v
    end.
Proof.
  unfold config_bap_api.
  destruct (Config.get enabled_key None api_section c) eqn:E.
  - exact E.
  - apply get_set_same.
Qed.

Lemma config_bap_api_path (c : Config.store) :
  Config.get path_key None None (config_bap_api c)
  = Config.get path_key None None c.
Proof.
  unfold config_bap_api.
  destruct (Config.get enabled_key None api_section c); [done|].
  by apply get_set_other.
Qed.

Lemma config_bap_api_twice (c : Config.store) :
  config_bap_api (config_bap_api c) = config_bap_api c.
Proof.
  unfold config_bap_api at 1.
  rewrite config_bap_api_enabled.
  by destruct (Config.get enabled_key None api_section c).
Qed.

(** ** [config_path] *)

(** The ways [config_path] can return, read off its definition. *)
Lemma config_path_returned (w : world) (c c' : Config.store) tr :
  config_path w c = (tr, Returned c') →
  (c' = c ∧ tr = [] ∧ is_Some (Config.get path_key None None c))
  ∨ (Config.get path_key None None c = None ∧
     ∃ tr0 d tr1,
       discover w = (tr0, Returned d) ∧ tr = tr0 ++ tr1 ∧
       ((ask_loop w d (file_replies w) (yn_replies w) = (tr1, Declined)
           ∧ c' = c)
        ∨ ∃ p, ask_loop w d (file_replies w) (yn_replies w) = (tr1, Chosen p)
           ∧ c' = Config.set path_key p None c)).
Proof.
  unfold config_path.
  destruct (Config.get path_key None None c) as [p|] eqn:Hp.
  - intros [= <- <-]. left. eauto.
  - destruct (discover w) as [tr0 [d|e|]] eqn:Hd; [|done..].
    destruct (ask_loop w d (file_replies w) (yn_replies w))
      as [tr1 [p| |]] eqn:Hl; intros [= <- <-]; right; split; try done.
    + exists tr0, d, tr1. eauto 10.
    + exists tr0, d, tr1. eauto 10.
Qed.

Lemma config_path_keeps_enabled (w : world) (c c' : Config.store) tr :
  config_path w c = (tr, Returned c') →
  Config.get enabled_key None api_section c'
  = Config.get enabled_key None api_section c.
Proof.
  intros H. apply config_path_returned in H
    as [(-> & _ & _)|(_ & tr0 & d & tr1 & _ & _ & [[_ ->]|(p & _ & ->)])];
    try done.
  by apply get_set_other.
Qed.

Lemma check_returned (w : world) (c c' : Config.store) tr :
  check_and_configure_bap w c = (tr, Returned c') →
  ∃ c1, config_path w c = (tr, Returned c1) ∧ c' = config_bap_api c1.
Proof.
  unfold check_and_configure_bap.
  destruct (config_path w c) as [tr0 [c1|e|]]; intros [= <- <-]; eauto.
Qed.

(** ** Events of the resolver *)

Lemma resolver_event_class e : resolver_event e → classify e ≠ Mutation.
Proof. by destruct e. Qed.

Lemma resolver_event_quiet e :
  resolver_event e → is_exec e = false ∧ is_mkstemp e = false.
Proof. by destruct e. Qed.

Lemma soft_check_events passes msg yns tr r yns' :
  soft_check passes msg yns = (tr, r, yns') → Forall resolver_event tr.
Proof.
  unfold soft_check. destruct passes.
  - intros [= <- _ _]. constructor.
  - destruct (confirm yns) as [[yes rest]|]; intros [= <- _ _];
      repeat constructor.
Qed.

Lemma loop_body_events w reply yns tr s yns' :
  loop_body w reply yns = (tr, s, yns') → Forall resolver_event tr.
Proof.
  unfold loop_body. destruct reply as [p|].
  - destruct (soft_check (endswith p "bap") msg_suffix yns)
      as [[e1 r1] y1] eqn:H1.
    apply soft_check_events in H1.
    destruct r1 as [[|]|]; try (intros [= <- _ _]; done).
    destruct (soft_check (isfile w p) msg_isfile y1) as [[e2 r2] y2] eqn:H2.
    apply soft_check_events in H2.
    destruct r2 as [[|]|]; intros [= <- _ _];
      (apply Forall_app; split; [done|by constructor]).
  - destruct (confirm yns) as [[[|] rest]|]; intros [= <- _ _];
      repeat constructor.
Qed.

Lemma ask_loop_events w d files :
  ∀ yns, Forall resolver_event (fst (ask_loop w d files yns)).
Proof.
  induction files as [|reply files IH]; intros yns; simpl.
  - repeat constructor.
  - destruct (loop_body w reply yns) as [[tr s] yns'] eqn:Hb.
    apply loop_body_events in Hb.
    destruct s; simpl; try by constructor.
    specialize (IH yns').
    destruct (ask_loop w d files yns') as [tr' e]; simpl in *.
    constructor; [done|]. by apply Forall_app.
Qed.

Lemma discover_events w : Forall resolver_event (fst (discover w)).
Proof.
  unfold discover.
  destruct (which_bap w); [|destruct (opam_bap_bin w) as [|[|]]]; simpl;
    repeat constructor; by (left + right).
Qed.

Lemma config_path_events w c : Forall resolver_event (fst (config_path w c)).
Proof.
  unfold config_path.
  destruct (Config.get path_key None None c); [constructor|].
  pose proof (discover_events w) as Hd.
  destruct (discover w) as [tr0 [d|e|]]; simpl in *; try done.
  pose proof (ask_loop_events w d (file_replies w) (yn_replies w)) as Hl.
  destruct (ask_loop w d (file_replies w) (yn_replies w)) as [tr1 [p| |]];
    simpl in *; by apply Forall_app.
Qed.

Lemma check_events w c :
  Forall resolver_event (fst (check_and_configure_bap w c)).
Proof.
  unfold check_and_configure_bap.
  pose proof (config_path_events w c) as H.
  by destruct (config_path w c) as [tr [c1|e|]].
Qed.

(** ** The resolver: the path *)

(** C7.  When [bap_executable_path] is set, the resolver returns without
    doing anything outside the store: its list of events is empty, so
    neither [which] nor [opam] is run, and the path entry is the one it
    found. *)
Theorem set_path_skips_discovery (w : world) (c : Config.store) (p : string) :
  Config.get path_key None None c = Some p →
  ∃ c', check_and_configure_bap w c = ([], Returned c')
        ∧ (∀ e, e ∈ fst (check_and_configure_bap w c) → is_probe e = false)
        ∧ Config.get path_key None None c' = Some p.
Proof.
  intros Hp. exists (config_bap_api c).
  assert (check_and_configure_bap w c = ([], Returned (config_bap_api c)))
    as Hrun.
  { unfold check_and_configure_bap, config_path. by rewrite Hp. }
  split; [done|]. split.
  - rewrite Hrun. simpl. intros e He. by apply elem_of_nil in He.
  - by rewrite config_bap_api_path.
Qed.

Lemma set_path_skips_discovery_witness :
  ∃ c', check_and_configure_bap opam_without_bap_world path_store
        = ([], Returned c')
        ∧ (∀ e, e ∈ fst (check_and_configure_bap opam_without_bap_world
                          path_store) → is_probe e = false)
        ∧ Config.get path_key None None c' = Some "/usr/bin/bap".
Proof.
  apply (set_path_skips_discovery opam_without_bap_world path_store
           "/usr/bin/bap").
  reflexivity.
Defined.

(** ** The resolver: the API switch *)

(** After a pass of the resolver that returns, [enabled] in section
    [bap_api] is ["1"] when it was unset before and is the value it had
    otherwise, whatever that value is. *)
Theorem enabled_after_pass (w : world) (c c' : Config.store) tr :
  check_and_configure_bap w c = (tr, Returned c') →
  Config.get enabled_key None api_section c'
  = match Config.get enabled_key None api_section c with
    | None => Some "1"
    | Some v => Some v
    end.
Proof.
  intros (c1 & Hc1 & ->)%check_returned.
  rewrite config_bap_api_enabled.
  by rewrite (config_path_keeps_enabled _ _ _ _ Hc1).
Qed.

Lemma enabled_after_pass_witness :
  Config.get enabled_key None api_section
    (config_bap_api (Config.set path_key "/usr/bin/bap" None ∅))
  = Some "1".
Proof.
  exact (enabled_after_pass accepting_world ∅
           (config_bap_api (Config.set path_key "/usr/bin/bap" None ∅))
           [CheckOutput which_argv; AskFile "/usr/bin/bap" "Path to bap";
            IsFile "/usr/bin/bap"] eq_refl).
Defined.

(** C8.  Not every pass gets as far as the switch.  [bap] is not on the
    path and [opam] exits with an error status: the exception of the
    second probe leaves the pass inside [config_path()] at line 66, line
    67 is not reached, and [enabled], unset before the pass, is still
    unset after it.  With [opam] missing instead of failing, the pass in
    the same surroundings returns and [enabled] is ["1"]. *)
Theorem enabled_unset_after_failed_pass :
  Config.get enabled_key None api_section (∅ : Config.store) = None
  ∧ snd (check_and_configure_bap opam_without_bap_world ∅)
    = Raised CalledProcessError
  ∧ Config.get enabled_key None api_section
      (store_after ∅ (snd (check_and_configure_bap opam_without_bap_world ∅)))
    = None
  ∧ Config.get enabled_key None api_section
      (store_after ∅ (snd (check_and_configure_bap opam_missing_world ∅)))
    = Some "1".
Proof.
  split; [reflexivity|]. split; [reflexivity|].
  split; [reflexivity|]. reflexivity.
Qed.



(** ** The resolver: running it again *)

(** C9.  A second pass of the resolver, in the same surroundings and
    with the same answers of the user, started from the store the first
    pass returned with, returns with that store unchanged.  Outside the
    store the first pass only showed dialogs and looked things up (the
    output of the locator commands, a file test): none of its events
    changes anything. *)
Theorem resolver_idempotent (w : world) (c c' : Config.store) tr :
  check_and_configure_bap w c = (tr, Returned c') →
  (∃ tr', check_and_configure_bap w c' = (tr', Returned c'))
  ∧ Forall (λ e, classify e ≠ Mutation) tr.
Proof.
  intros Hrun. split.
  - apply check_returned in Hrun as (c1 & Hc1 & ->).
    assert (∀ p, Config.get path_key None None c1 = Some p →
              check_and_configure_bap w (config_bap_api c1)
              = ([], Returned (config_bap_api c1))) as Hskip.
    { intros p Hp. unfold check_and_configure_bap, config_path.
      rewrite config_bap_api_path, Hp. by rewrite config_bap_api_twice. }
    apply config_path_returned in Hc1
      as [(-> & _ & [p Hp])
         |(Hnone & tr0 & d & tr1 & Hd & -> & [[Hl ->]|(p & Hl & ->)])].
    + eauto.
    + exists (tr0 ++ tr1).
      unfold check_and_configure_bap, config_path.
      rewrite config_bap_api_path, Hnone, Hd, Hl.
      by rewrite config_bap_api_twice.
    + exists []. apply (Hskip p), get_set_same.
  - pose proof (check_events w c) as Hev. rewrite Hrun in Hev.
    eapply Forall_impl; [exact Hev|]. apply resolver_event_class.
Qed.

Lemma resolver_idempotent_witness :
  (∃ tr', check_and_configure_bap declining_world (config_bap_api ∅)
          = (tr', Returned (config_bap_api ∅)))
  ∧ Forall (λ e, classify e ≠ Mutation)
      [CheckOutput which_argv; CheckOutput opam_argv;
       AskFile EmptyString "Path to bap"; AskYN msg_unset;
       AskFile EmptyString "Path to bap"; AskYN msg_unset].
Proof.
  exact (resolver_idempotent declining_world ∅ (config_bap_api ∅) _ eq_refl).
Defined.

(** ** The resolver: the probes *)

(** The errors the resolver swallows: any failure of [which], and
    [opam] missing.  It then goes on to ask the user. *)
Lemma discover_swallows (w : world) :
  opam_bap_bin w ≠ Fails CalledProcessError →
  ∃ d, snd (discover w) = Returned d.
Proof.
  intros Hopam. unfold discover.
  destruct (which_bap w); [eauto|].
  destruct (opam_bap_bin w) as [out|[|]]; simpl; eauto. done.
Qed.

(** The suggestion shown to the user is empty when [which] answered with
    something that does not end with [bap], and when [which] failed and
    [opam] is missing. *)
Lemma discover_no_suggestion (w : world) (d : string) :
  snd (discover w) = Returned d →
  (∃ out, which_bap w = Output out ∧ endswith (strip out) "bap" = false)
  ∨ (∃ e, which_bap w = Fails e ∧ opam_bap_bin w = Fails OSError) →
  d = EmptyString.
Proof.
  unfold discover.
  intros Hd [(out & Hw & Hend)|(e & Hw & Ho)]; rewrite Hw in Hd.
  - simpl in Hd. unfold plausible in Hd. rewrite Hend in Hd. congruence.
  - rewrite Ho in Hd. simpl in Hd. injection Hd as <-. reflexivity.
Qed.

(** Whatever [opam] prints, joining [bap] to it gives a suggestion that
    ends with [bap]: the test of line 38 cannot drop it. *)
Lemma endswith_app (s suf : string) : endswith (s +:+ suf) suf = true.
Proof.
  unfold endswith. apply bool_decide_eq_true.
  rewrite chars_app, length_app.
  replace (length (chars s) + length (chars suf) - length (chars suf))
    with (length (chars s)) by lia.
  by rewrite drop_app_length.
Qed.

Lemma path_join_bap (a : string) : endswith (path_join a "bap") "bap" = true.
Proof.
  unfold path_join.
  destruct (bool_decide (a = EmptyString) || endswith a "/").
  - apply endswith_app.
  - rewrite <- str_app_assoc. apply endswith_app.
Qed.

(** C3.  [bap] is not on the path and [opam] exits with an error status:
    the [CalledProcessError] of the second probe is not caught by the
    handler of lines 35 to 37, which names [OSError] only, and leaves the
    resolver; no dialog is shown and nothing is stored. *)
Theorem opam_error_escapes :
  check_and_configure_bap opam_without_bap_world ∅
  = ([CheckOutput which_argv; CheckOutput opam_argv],
     Raised CalledProcessError)
  ∧ run_bap_with opam_without_bap_world ∅ "-analyze" false
    = ([CheckOutput which_argv; CheckOutput opam_argv],
       Raised CalledProcessError).
Proof. split; reflexivity. Qed.

(** ** The run *)

Lemma run_path_unset (w : world) (c c' : Config.store) tr args mode :
  check_and_configure_bap w c = (tr, Returned c') →
  Config.get path_key None None c' = None →
  run_bap_with w c args mode = (tr, Returned c').
Proof. intros Hrun Hp. unfold run_bap_with. by rewrite Hrun, Hp. Qed.

Lemma run_path_set (w : world) (c c' : Config.store) tr exe args mode :
  check_and_configure_bap w c = (tr, Returned c') →
  Config.get path_key None None c' = Some exe →
  run_bap_with w c args mode
  = (tr ++ staged_run w c' exe args mode, Returned c').
Proof. intros Hrun Hp. unfold run_bap_with. by rewrite Hrun, Hp. Qed.

(** The resolver starts no command and makes no file. *)
Lemma resolver_filter (f : event → bool) (tr : list event) :
  (∀ e, resolver_event e → f e = false) →
  Forall resolver_event tr → List.filter f tr = [].
Proof.
  intros Hf. induction 1 as [|e tr He _ IH]; simpl; [done|].
  by rewrite (Hf e He).
Qed.

Lemma resolver_no_removal e : resolver_event e → is_removal e = false.
Proof. by destruct e. Qed.


Lemma resolver_no_mkstemp e : resolver_event e → is_mkstemp e = false.
Proof. by destruct e. Qed.

(** C1, as stated, fails: a run in which the user declines has started
    the discovery probes, which are processes of their own, before the
    first dialog.  Here [bap] is not on the path, [opam] is missing, and
    the user dismisses the file dialog twice, confirming the second time. *)
Lemma declined_run_started_probes :
  Config.get path_key None None (∅ : Config.store) = None
  ∧ snd (ask_loop declining_world EmptyString
           (file_replies declining_world) (yn_replies declining_world))
    = Declined
  ∧ ¬ Forall (λ e, is_subprocess e = false)
        (fst (run_bap_with declining_world ∅ "-analyze" true)).
Proof.
  split; [reflexivity|]. split; [reflexivity|].
  intros H. by apply Forall_cons_1 in H as [? _].
Qed.

(** C1, amended.  The path is unset, the probes end without an error
    leaving the resolver, and the user ends the dialog loop by confirming
    that no path is to be set.  Then the resolver returns with the path
    still absent, and [run_bap_with], for every argument string and mode,
    returns right after it: nothing is handed to [idc.Exec], no temporary
    file is made, and the only processes started are the two probes. *)
Theorem declined_run_is_silent (w : world) (c : Config.store)
  (tr0 tr1 : list event) (d argument_string : string) (no_extras : bool) :
  Config.get path_key None None c = None →
  discover w = (tr0, Returned d) →
  ask_loop w d (file_replies w) (yn_replies w) = (tr1, Declined) →
  ∃ c',
    check_and_configure_bap w c = (tr0 ++ tr1, Returned c')
    ∧ Config.get path_key None None c' = None
    ∧ run_bap_with w c argument_string no_extras
      = (tr0 ++ tr1, Returned c')
    ∧ Forall (λ e, is_exec e = false ∧ is_mkstemp e = false
                   ∧ (is_subprocess e = true →
                      e = CheckOutput which_argv ∨ e = CheckOutput opam_argv))
        (tr0 ++ tr1).
Proof.
  intros Hp Hd Hl. exists (config_bap_api c).
  assert (check_and_configure_bap w c
          = (tr0 ++ tr1, Returned (config_bap_api c))) as Hrun.
  { unfold check_and_configure_bap, config_path. by rewrite Hp, Hd, Hl. }
  assert (Config.get path_key None None (config_bap_api c) = None) as Hp'.
  { by rewrite config_bap_api_path. }
  split; [done|]. split; [done|]. split.
  - by apply run_path_unset.
  - pose proof (check_events w c) as Hev. rewrite Hrun in Hev.
    eapply Forall_impl; [exact Hev|].
    intros e He. destruct e; try done.
    simpl in He. repeat split; try done.
    intros _. destruct He as [-> | ->]; auto.
Qed.

Lemma declined_run_is_silent_witness :
  ∃ c',
    check_and_configure_bap declining_world ∅
    = ([CheckOutput which_argv; CheckOutput opam_argv]
       ++ [AskFile EmptyString "Path to bap"; AskYN msg_unset;
           AskFile EmptyString "Path to bap"; AskYN msg_unset],
       Returned c')
    ∧ Config.get path_key None None c' = None
    ∧ run_bap_with declining_world ∅ "-analyze" true
      = ([CheckOutput which_argv; CheckOutput opam_argv]
         ++ [AskFile EmptyString "Path to bap"; AskYN msg_unset;
             AskFile EmptyString "Path to bap"; AskYN msg_unset],
         Returned c')
    ∧ Forall (λ e, is_exec e = false ∧ is_mkstemp e = false
                   ∧ (is_subprocess e = true →
                      e = CheckOutput which_argv ∨ e = CheckOutput opam_argv))
        ([CheckOutput which_argv; CheckOutput opam_argv]
         ++ [AskFile EmptyString "Path to bap"; AskYN msg_unset;
             AskFile EmptyString "Path to bap"; AskYN msg_unset]).
Proof.
  apply (declined_run_is_silent declining_world ∅ _ _ EmptyString
           "-analyze" true); reflexivity.
Defined.

(** ** The run: cleaning up *)

Lemma starts_here (p l : list ascii) : starts p (p ++ l) = true.
Proof.
  induction p as [|a p IH]; simpl; [done|]. by rewrite bool_decide_eq_true_2.
Qed.

Lemma occurs_here (p l : list ascii) : occurs p (p ++ l) = true.
Proof. destruct (p ++ l) eqn:E; simpl; rewrite <- E, starts_here; done. Qed.

Lemma occurs_skip (p l1 l2 : list ascii) :
  occurs p l2 = true → occurs p (l1 ++ l2) = true.
Proof.
  intros H. induction l1 as [|b l1 IH]; simpl; [done|].
  rewrite IH. apply orb_true_r.
Qed.

(** The removal command names the three temporary files, each between
    quotes. *)
Lemma cleanup_names_files (a : run_args) :
  contains (cleanup_command a) (quoted (symbol_file_location a)) = true
  ∧ contains (cleanup_command a) (quoted (header_path a)) = true
  ∧ contains (cleanup_command a) (quoted (bap_output_file a)) = true.
Proof.
  unfold contains, cleanup_command. rewrite !chars_app.
  repeat split; repeat (apply occurs_here || apply occurs_skip).
Qed.

(** No other command of a run has [rm] as its first word. *)
Lemma commands_not_removal (a : run_args) :
  is_removal (Exec (minimal_command a)) = false
  ∧ is_removal (Exec (full_command a)) = false
  ∧ is_removal (Exec (api_add_command a)) = false
  ∧ is_removal (Exec (api_remove_command a)) = false
  ∧ is_removal (Exec (cleanup_command a)) = true.
Proof. repeat split; reflexivity. Qed.

Lemma staged_run_removal w c exe args mode :
  List.filter is_removal (staged_run w c exe args mode)
  = [Exec (cleanup_command (make_args w exe args))].
Proof.
  unfold staged_run.
  destruct (commands_not_removal (make_args w exe args))
    as (Hm & Hf & Ha & Hr & Hc).
  destruct mode, (bap_api_enabled c), (view_open w); simpl;
    rewrite ?Hm, ?Hf, ?Ha, ?Hr, ?Hc; reflexivity.
Qed.

Lemma staged_run_mkstemp w c exe args mode :
  List.filter is_mkstemp (staged_run w c exe args mode)
  = [Mkstemp ".out" "ida-bap-"; Mkstemp ".sym" "ida-bap-";
     Mkstemp ".h" "ida-bap-"].
Proof.
  unfold staged_run.
  by destruct mode, (bap_api_enabled c), (view_open w).
Qed.

Lemma staged_run_last w c exe args mode :
  last (staged_run w c exe args mode)
  = Some (Exec (cleanup_command (make_args w exe args))).
Proof.
  unfold staged_run.
  by destruct mode, (bap_api_enabled c), (view_open w).
Qed.

(** C2, as stated, fails: the run in which the user declines issues no
    removal at all. *)
Lemma declined_run_has_no_cleanup :
  length (List.filter is_removal
            (fst (run_bap_with declining_world ∅ "-analyze" true))) ≠ 1.
Proof. vm_compute. discriminate. Qed.

(** C2, amended.  Of a run whose resolver has returned: when the
    executable path is set, the removal command is issued once, as the
    last thing the run does, in either mode and whatever the API switch
    says; it names, between quotes, the three paths that the three calls
    of [mkstemp] of this run handed out, so every temporary file of the
    run is passed to it.  When the path is still unset the run ends at
    once, having made no temporary file and issued no removal. *)
Theorem cleanup_issued_once (w : world) (c c' : Config.store)
  (tr : list event) (argument_string : string) (no_extras : bool) :
  check_and_configure_bap w c = (tr, Returned c') →
  match Config.get path_key None None c' with
  | Some exe =>
      let a := make_args w exe argument_string in
      let run := fst (run_bap_with w c argument_string no_extras) in
      snd (run_bap_with w c argument_string no_extras) = Returned c'
      ∧ List.filter is_removal run = [Exec (cleanup_command a)]
      ∧ last run = Some (Exec (cleanup_command a))
      ∧ List.filter is_mkstemp run
        = [Mkstemp ".out" "ida-bap-"; Mkstemp ".sym" "ida-bap-";
           Mkstemp ".h" "ida-bap-"]
      ∧ contains (cleanup_command a) (quoted (tmp_sym w)) = true
      ∧ contains (cleanup_command a) (quoted (tmp_hdr w)) = true
      ∧ contains (cleanup_command a) (quoted (tmp_out w)) = true
  | None =>
      run_bap_with w c argument_string no_extras = (tr, Returned c')
      ∧ List.filter is_removal tr = []
      ∧ List.filter is_mkstemp tr = []
  end.
Proof.
  intros Hrun.
  pose proof (check_events w c) as Hev. rewrite Hrun in Hev. simpl in Hev.
  destruct (Config.get path_key None None c') as [exe|] eqn:Hp.
  - rewrite (run_path_set _ _ _ _ _ _ _ Hrun Hp). simpl.
    rewrite !List.filter_app.
    rewrite (resolver_filter is_removal tr resolver_no_removal Hev).
    rewrite (resolver_filter is_mkstemp tr resolver_no_mkstemp Hev).
    rewrite staged_run_removal, staged_run_mkstemp. simpl.
    split; [done|]. split; [done|]. split.
    + pose proof (staged_run_last w c' exe argument_string no_extras) as Hl.
      destruct (staged_run w c' exe argument_string no_extras) as [|e l]
        eqn:E; [done|].
      rewrite <- Hl. apply last_app_cons.
    + split; [done|].
      apply (cleanup_names_files (make_args w exe argument_string)).
  - split; [by apply run_path_unset|]. split.
    + by apply resolver_filter; [apply resolver_no_removal|].
    + by apply resolver_filter; [apply resolver_no_mkstemp|].
Qed.

Lemma cleanup_issued_once_witness :
  let a := make_args accepting_world "/usr/bin/bap" "-analyze" in
  let run := fst (run_bap_with accepting_world ∅ "-analyze" true) in
  snd (run_bap_with accepting_world ∅ "-analyze" true)
  = Returned (config_bap_api (Config.set path_key "/usr/bin/bap" None ∅))
  ∧ List.filter is_removal run = [Exec (cleanup_command a)]
  ∧ last run = Some (Exec (cleanup_command a))
  ∧ List.filter is_mkstemp run
    = [Mkstemp ".out" "ida-bap-"; Mkstemp ".sym" "ida-bap-";
       Mkstemp ".h" "ida-bap-"]
  ∧ contains (cleanup_command a) (quoted "/tmp/ida-bap-b.sym") = true
  ∧ contains (cleanup_command a) (quoted "/tmp/ida-bap-c.h") = true
  ∧ contains (cleanup_command a) (quoted "/tmp/ida-bap-a.out") = true.
Proof.
  exact (cleanup_issued_once accepting_world ∅ _ _ "-analyze" true eq_refl).
Defined.

(** ** The run: the API switch off *)


(** An event that differs from every member of an explicit list. *)
Ltac absent :=
  repeat (apply not_elem_of_cons; split; [congruence|]);
  apply not_elem_of_nil.





(** ** The minimal command: the options of the full template *)

Lemma occurs_nil (p : list ascii) : p ≠ [] → occurs p [] = false.
Proof. by destruct p. Qed.

Lemma starts_separator_first (p : list ascii) (c : ascii) :
  p ≠ [] → avoids p c = true → ∀ l, starts p (c :: l) = false.
Proof.
  intros Hp Hc l. destruct p as [|a q]; [done|]. simpl in *.
  apply andb_true_iff in Hc as [Ha _].
  apply negb_true_iff in Ha. by rewrite Ha.
Qed.

Lemma occurs_separator_first (p : list ascii) (c : ascii) :
  p ≠ [] → avoids p c = true → ∀ l, occurs p (c :: l) = occurs p l.
Proof.
  intros Hp Hc l.
  change (occurs p (c :: l)) with (starts p (c :: l) || occurs p l).
  by rewrite starts_separator_first.
Qed.

Lemma starts_separator (p : list ascii) (c : ascii) :
  avoids p c = true →
  ∀ l1 l2, starts p (l1 ++ c :: l2) = starts p l1.
Proof.
  induction p as [|a q IH]; intros Hc l1 l2; [by destruct l1|].
  simpl in Hc. apply andb_true_iff in Hc as [Ha Hq].
  destruct l1 as [|b l1]; simpl.
  - apply negb_true_iff in Ha. by rewrite Ha.
  - by rewrite IH.
Qed.

(** An occurrence of [p] cannot reach across a character that [p] does
    not have. *)
Lemma occurs_separator (p : list ascii) (c : ascii) :
  p ≠ [] → avoids p c = true →
  ∀ l1 l2, occurs p (l1 ++ c :: l2) = occurs p l1 || occurs p l2.
Proof.
  intros Hp Hc l1 l2. induction l1 as [|b l1 IH].
  - rewrite (occurs_nil p Hp). by apply occurs_separator_first.
  - change (occurs p ((b :: l1) ++ c :: l2))
      with (starts p ((b :: l1) ++ c :: l2) || occurs p (l1 ++ c :: l2)).
    change (occurs p (b :: l1)) with (starts p (b :: l1) || occurs p l1).
    rewrite (starts_separator p c Hc (b :: l1) l2), IH.
    by rewrite orb_assoc.
Qed.

(** An option made of dashes and letters is in the minimal command
    exactly when it is in one of the four values put into the template:
    the template itself is blanks, quotes and the redirection. *)
Lemma minimal_command_occurrences (a : run_args) (flag : string) :
  chars flag ≠ [] →
  forallb (avoids (chars flag)) template_chars = true →
  contains (minimal_command a) flag
  = contains (bap_executable_path a) flag
    || contains (input_file_path a) flag
    || contains (remaining_args a) flag
    || contains (bap_output_file a) flag.
Proof.
  intros Hne Hsep. unfold contains.
  set (p := chars flag) in *.
  assert (avoids p " " = true ∧ avoids p "034" = true ∧ avoids p ">" = true
          ∧ avoids p "2" = true ∧ avoids p "&" = true ∧ avoids p "1" = true)
    as (Hb & Hq & Hg & H2 & Ha & H1).
  { unfold template_chars in Hsep. simpl in Hsep.
    repeat (apply andb_true_iff in Hsep as [? Hsep]). done. }
  unfold minimal_command, quoted, dquote.
  rewrite !chars_app, <- ?app_assoc.
  cbn [chars String.list_ascii_of_string blanks List.app].
  rewrite !(occurs_separator_first p " " Hne Hb).
  rewrite !(occurs_separator_first p "034" Hne Hq).
  rewrite (occurs_separator p "034" Hne Hq).
  rewrite !(occurs_separator_first p " " Hne Hb).
  rewrite !(occurs_separator_first p "034" Hne Hq).
  rewrite (occurs_separator p "034" Hne Hq).
  rewrite !(occurs_separator_first p " " Hne Hb).
  rewrite (occurs_separator p " " Hne Hb).
  rewrite !(occurs_separator_first p " " Hne Hb).
  rewrite !(occurs_separator_first p ">" Hne Hg).
  rewrite !(occurs_separator_first p " " Hne Hb).
  rewrite !(occurs_separator_first p "034" Hne Hq).
  rewrite (occurs_separator p "034" Hne Hq).
  rewrite !(occurs_separator_first p " " Hne Hb).
  rewrite !(occurs_separator_first p "2" Hne H2).
  rewrite !(occurs_separator_first p ">" Hne Hg).
  rewrite !(occurs_separator_first p "&" Hne Ha).
  rewrite !(occurs_separator_first p "1" Hne H1).
  rewrite !(occurs_separator_first p " " Hne Hb).
  rewrite (occurs_nil p Hne).
  by rewrite orb_false_r, !orb_assoc.
Qed.

(** In minimal mode the commands of a run are the minimal command and
    the removal. *)
Lemma minimal_run_commands (w : world) (c : Config.store)
  (exe argument_string : string) :
  List.filter is_exec (staged_run w c exe argument_string true)
  = [Exec (minimal_command (make_args w exe argument_string));
     Exec (cleanup_command (make_args w exe argument_string))].
Proof. unfold staged_run. by destruct (view_open w). Qed.

(** C4, as stated, fails: the argument string is copied into the command
    as it is, so a caller who passes [--rooter=file] gets a minimal
    command with [--rooter] in it. *)
Lemma minimal_command_carries_argument :
  Exec (minimal_command (make_args accepting_world "/usr/bin/bap"
                           "--rooter=file"))
  ∈ fst (run_bap_with accepting_world path_store "--rooter=file" true)
  ∧ contains (minimal_command (make_args accepting_world "/usr/bin/bap"
                                 "--rooter=file")) "--rooter" = true.
Proof.
  split; [|reflexivity].
  apply list_elem_of_In, (proj1 (List.filter_In is_exec _ _)).
  vm_compute. by left.
Qed.

(** C4, amended.  The minimal template adds none of
    [--read-symbols-from], [--symbolizer] and [--rooter]: for every
    argument string and all paths, one of them is in the minimal command
    exactly when it is in the argument string or in one of the three
    paths put into the template. *)
Theorem minimal_template_adds_no_flag (a : run_args) (flag : string) :
  flag ∈ extra_flags →
  contains (minimal_command a) flag
  = contains (bap_executable_path a) flag
    || contains (input_file_path a) flag
    || contains (remaining_args a) flag
    || contains (bap_output_file a) flag.
Proof.
  intros Hflag. apply minimal_command_occurrences.
  - unfold extra_flags in Hflag.
    repeat (apply elem_of_cons in Hflag as [->|Hflag]; [done|]).
    by apply elem_of_nil in Hflag.
  - unfold extra_flags in Hflag.
    repeat (apply elem_of_cons in Hflag as [->|Hflag]; [reflexivity|]).
    by apply elem_of_nil in Hflag.
Qed.

Lemma minimal_template_adds_no_flag_witness :
  contains (minimal_command (make_args accepting_world "/usr/bin/bap"
                               "-analyze")) "--symbolizer"
  = false.
Proof.
  rewrite (minimal_template_adds_no_flag
             (make_args accepting_world "/usr/bin/bap" "-analyze")
             "--symbolizer").
  - reflexivity.
  - unfold extra_flags. apply elem_of_cons. right. apply elem_of_cons.
    by left.
Defined.

(** ** The minimal command: its text *)

Lemma same_words_refl (r : string) : same_words r r.
Proof. by intros cur. Qed.

(** The same text in front of two strings with the same words. *)
Lemma same_words_app (v r1 r2 : string) :
  same_words r1 r2 → same_words (v +:+ r1) (v +:+ r2).
Proof.
  intros Hr. induction v as [|x v IH]; intros cur; [apply Hr|].
  rewrite !str_app_cons. simpl.
  destruct (Ascii.is_space x); [by rewrite (IH None)|apply IH].
Qed.

Lemma words_after_blanks (n : nat) (r : string) :
  String.words_go None (blanks n +:+ r) = String.words_go None r.
Proof.
  induction n as [|n IH]; [done|].
  change (blanks (S n)) with (String " " (blanks n)).
  rewrite str_app_cons. exact IH.
Qed.

(** Blanks after a blank change no word. *)
Lemma same_words_padding (n : nat) (r1 r2 : string) :
  same_words r1 r2 →
  same_words (" " +:+ blanks n +:+ r1) (" " +:+ r2).
Proof.
  intros Hr cur.
  change (" " +:+ blanks n +:+ r1) with (String " " (blanks n +:+ r1)).
  change (" " +:+ r2) with (String " " r2).
  simpl. by rewrite words_after_blanks, (Hr None).
Qed.

(** The minimal command and the command written with single blanks
    split into the same words. *)
Lemma minimal_command_words (a : run_args) :
  String.words (minimal_command a) = String.words (plain_minimal_command a).
Proof.
  unfold String.words, minimal_command, plain_minimal_command, quoted.
  rewrite words_after_blanks, !str_app_assoc.
  do 7 apply same_words_app.
  apply same_words_padding, same_words_app.
  change (" > " +:+ ?r) with (" " +:+ "> " +:+ r).
  apply same_words_padding.
  do 4 apply same_words_app.
  intros cur. by destruct cur.
Qed.

(** C5, as stated, fails: the command has blanks that the stated text
    has not. *)
Lemma minimal_command_is_padded :
  Exec (minimal_command (make_args accepting_world "/usr/bin/bap" "-analyze"))
  ∈ fst (run_bap_with accepting_world path_store "-analyze" true)
  ∧ minimal_command (make_args accepting_world "/usr/bin/bap" "-analyze")
    ≠ plain_minimal_command
        (make_args accepting_world "/usr/bin/bap" "-analyze").
Proof.
  split; [|by vm_compute].
  apply list_elem_of_In, (proj1 (List.filter_In is_exec _ _)).
  vm_compute. by left.
Qed.

(** C5, amended.  In minimal mode with the argument string [-analyze],
    the command is the stated one with blanks added: twelve in front,
    twelve more before [-analyze] and before [>], thirteen at the end,
    and no other character; split at white space it gives the words of
    the stated command. *)
Theorem minimal_analyze_command (w : world) (exe : string) :
  minimal_command (make_args w exe "-analyze")
  = "            " +:+ quoted exe +:+ " " +:+ quoted (input_file w)
    +:+ "             -analyze             > " +:+ quoted (tmp_out w)
    +:+ " 2>&1             "
  ∧ String.words (minimal_command (make_args w exe "-analyze"))
    = String.words
        (quoted exe +:+ " " +:+ quoted (input_file w) +:+ " -analyze > "
         +:+ quoted (tmp_out w) +:+ " 2>&1").
Proof.
  split; [reflexivity|].
  rewrite minimal_command_words. reflexivity.
Qed.

(** * Further properties of the code *)

(** ** The dialog loop *)

(** What a round that ends the loop with [break] has gone through. *)
Lemma loop_body_break (w : world) reply yns tr p yns' :
  loop_body w reply yns = (tr, Break p, yns') →
  reply = Some p
  ∧ tr = (if endswith p "bap" then [] else [AskYN msg_suffix])
         ++ IsFile p :: (if isfile w p then [] else [AskYN msg_isfile])
  ∧ (valid_path w p = false → ASKBTN_YES ∈ yns).
Proof.
  unfold loop_body, soft_check, confirm, valid_path. intros H.
  repeat case_match; simplify_eq/=; try congruence.
  all: split; [done|]; split; [done|]; intros ?; try done.
  all: repeat match goal with
    | Hb : bool_decide (_ = ASKBTN_YES) = true |- _ =>
        apply bool_decide_eq_true in Hb as ->
    end.
  all: set_solver.
Qed.

(** The yes/no answers a round leaves are a tail of the ones it got. *)
Lemma loop_body_answers (w : world) reply yns tr s yns' :
  loop_body w reply yns = (tr, s, yns') → ∃ used, yns = used ++ yns'.
Proof.
  unfold loop_body, soft_check, confirm. intros H.
  repeat case_match; simplify_eq/=;
    first [by eexists [] | by eexists [_] | by eexists [_; _]].
Qed.

(** A round ends the loop with [return] only on a YES. *)
Lemma loop_body_return (w : world) reply yns tr yns' :
  loop_body w reply yns = (tr, Return, yns') →
  reply = None ∧ ASKBTN_YES ∈ yns.
Proof.
  unfold loop_body, soft_check, confirm. intros H.
  repeat case_match; simplify_eq/=.
  split; [done|].
  match goal with
  | Hb : bool_decide (_ = ASKBTN_YES) = true |- _ =>
      apply bool_decide_eq_true in Hb as ->
  end. set_solver.
Qed.

(** The loop ends with a path only in a round in which the user gave
    that path; the events of that round close the list of events. *)
Lemma ask_loop_chosen (w : world) (d : string) files :
  ∀ yns tr p,
    ask_loop w d files yns = (tr, Chosen p) →
    Some p ∈ files
    ∧ (∃ before, tr = before ++ accepting_round w d p)
    ∧ (valid_path w p = false → ASKBTN_YES ∈ yns).
Proof.
  induction files as [|reply files IH]; intros yns tr p; simpl; [done|].
  destruct (loop_body w reply yns) as [[tr0 s] yns'] eqn:Hb.
  destruct s as [q| | |]; try done.
  - intros [= <- ->].
    apply loop_body_break in Hb as (-> & -> & Hyes).
    split; [by left|]. split; [by exists []|done].
  - destruct (ask_loop w d files yns') as [tr' e] eqn:Hl.
    intros [= <- ->].
    destruct (IH _ _ _ Hl) as (Hin & [before ->] & Hyes).
    apply loop_body_answers in Hb as [used ->].
    split; [by right|]. split.
    + exists (AskFile d "Path to bap" :: tr0 ++ before).
      simpl. by rewrite <- app_assoc.
    + intros Hv. apply elem_of_app. right. by apply Hyes.
Qed.

(** The loop ends without a path only after a YES to the question
    whether no path is to be set. *)
Lemma ask_loop_declined (w : world) (d : string) files :
  ∀ yns tr,
    ask_loop w d files yns = (tr, Declined) →
    None ∈ files ∧ ASKBTN_YES ∈ yns
    ∧ ∃ before, tr = before ++ [AskFile d "Path to bap"; AskYN msg_unset].
Proof.
  induction files as [|reply files IH]; intros yns tr; simpl; [done|].
  destruct (loop_body w reply yns) as [[tr0 s] yns'] eqn:Hb.
  destruct s as [q| | |]; try done.
  - destruct (ask_loop w d files yns') as [tr' e] eqn:Hl.
    intros [= <- ->].
    destruct (IH _ _ Hl) as (Hin & Hyes & [before ->]).
    apply loop_body_answers in Hb as [used ->].
    split; [by right|]. split; [apply elem_of_app; by right|].
    exists (AskFile d "Path to bap" :: tr0 ++ before).
    simpl. by rewrite <- app_assoc.
  - intros [= <-].
    pose proof (loop_body_return _ _ _ _ _ Hb) as [-> Hyes].
    split; [by left|]. split; [done|].
    exists []. simpl. f_equal.
    revert Hb. unfold loop_body, confirm.
    by repeat case_match; intros [= <- _].
Qed.

(** X1.  A path that the resolver stores is one the user gave in the
    file dialog, never the suggestion of the probes on its own: the
    events of the resolver end with the round in which the user gave it,
    and a path that fails one of the two validations is stored only when
    the user has answered YES to a question. *)
Theorem stored_path_is_users_answer (w : world) (c c' : Config.store)
  (tr : list event) (p : string) :
  check_and_configure_bap w c = (tr, Returned c') →
  Config.get path_key None None c = None →
  Config.get path_key None None c' = Some p →
  Some p ∈ file_replies w
  ∧ (∃ d before, snd (discover w) = Returned d
                 ∧ tr = before ++ accepting_round w d p)
  ∧ (valid_path w p = false → ASKBTN_YES ∈ yn_replies w).
Proof.
  intros (c1 & Hc1 & ->)%check_returned Hnone Hp.
  rewrite config_bap_api_path in Hp.
  apply config_path_returned in Hc1
    as [(-> & _ & _)
       |(_ & tr0 & d & tr1 & Hd & -> & [[Hl ->]|(q & Hl & ->)])];
    [congruence..|].
  rewrite get_set_same in Hp. injection Hp as ->.
  apply ask_loop_chosen in Hl as (Hin & [before ->] & Hyes).
  split; [done|]. split; [|done].
  exists d, (tr0 ++ before). rewrite Hd. split; [done|].
  by rewrite app_assoc.
Qed.

Lemma stored_path_is_users_answer_witness :
  Some "/usr/bin/bap" ∈ file_replies accepting_world
  ∧ (∃ d before, snd (discover accepting_world) = Returned d
       ∧ [CheckOutput which_argv; AskFile "/usr/bin/bap" "Path to bap";
          IsFile "/usr/bin/bap"]
         = before ++ accepting_round accepting_world d "/usr/bin/bap")
  ∧ (valid_path accepting_world "/usr/bin/bap" = false →
     ASKBTN_YES ∈ yn_replies accepting_world).
Proof.
  exact (stored_path_is_users_answer accepting_world ∅ _ _ "/usr/bin/bap"
           eq_refl eq_refl eq_refl).
Defined.

(** X2.  CANCEL counts as NO.  When none of the user's yes/no answers is
    YES, the resolver cannot return with the path unset, and the path it
    returns with ends with [bap] and names a file. *)
Theorem without_yes_only_valid_paths (w : world) (c c' : Config.store)
  (tr : list event) :
  Config.get path_key None None c = None →
  ASKBTN_YES ∉ yn_replies w →
  check_and_configure_bap w c = (tr, Returned c') →
  ∃ p, Config.get path_key None None c' = Some p
       ∧ endswith p "bap" = true ∧ isfile w p = true.
Proof.
  intros Hnone Hno (c1 & Hc1 & ->)%check_returned.
  apply config_path_returned in Hc1
    as [(-> & _ & [p Hp])
       |(_ & tr0 & d & tr1 & Hd & -> & [[Hl ->]|(q & Hl & ->)])].
  - congruence.
  - by apply ask_loop_declined in Hl as (_ & Hyes & _).
  - exists q. rewrite config_bap_api_path, get_set_same. split; [done|].
    apply ask_loop_chosen in Hl as (_ & _ & Hyes).
    destruct (valid_path w q) eqn:Hv; [|by destruct Hno; apply Hyes].
    by apply andb_true_iff in Hv.
Qed.

Lemma without_yes_only_valid_paths_witness :
  ∃ p, Config.get path_key None None
         (config_bap_api (Config.set path_key "/usr/bin/bap" None ∅))
       = Some p
       ∧ endswith p "bap" = true ∧ isfile hesitant_world p = true.
Proof.
  apply (without_yes_only_valid_paths hesitant_world ∅ _
           [CheckOutput which_argv; CheckOutput opam_argv;
            AskFile EmptyString "Path to bap"; AskYN msg_unset;
            AskFile EmptyString "Path to bap"; AskYN msg_suffix;
            AskFile EmptyString "Path to bap"; IsFile "/usr/bin/bap"]).
  - reflexivity.
  - simpl. absent.
  - reflexivity.
Defined.

(** X3.  The loop has no bound of its own: as long as the user neither
    gives a path that passes both validations nor answers YES to a
    question, the resolver stays in the dialogs; it does not return and
    stores nothing. *)
Theorem loop_waits_for_a_decision (w : world) (c : Config.store)
  (tr0 : list event) (d : string) :
  Config.get path_key None None c = None →
  discover w = (tr0, Returned d) →
  ASKBTN_YES ∉ yn_replies w →
  (∀ p, Some p ∈ file_replies w → valid_path w p = false) →
  ∃ tr, check_and_configure_bap w c = (tr, Waiting)
        ∧ ∀ argument_string no_extras,
            run_bap_with w c argument_string no_extras = (tr, Waiting).
Proof.
  intros Hnone Hd Hno Hbad.
  destruct (ask_loop w d (file_replies w) (yn_replies w)) as [tr1 e] eqn:Hl.
  assert (e = Unanswered) as ->.
  { destruct e as [p| |]; [| |done].
    - apply ask_loop_chosen in Hl as (Hin & _ & Hyes).
      destruct Hno. by apply Hyes, Hbad.
    - by apply ask_loop_declined in Hl as (_ & Hyes & _). }
  exists (tr0 ++ tr1).
  assert (check_and_configure_bap w c = (tr0 ++ tr1, Waiting)) as Hc.
  { unfold check_and_configure_bap, config_path. by rewrite Hnone, Hd, Hl. }
  split; [done|]. intros. unfold run_bap_with. by rewrite Hc.
Qed.

Lemma loop_waits_for_a_decision_witness :
  ∃ tr, check_and_configure_bap
          (World (Fails OSError) (Fails OSError) (λ _, false)
             [Some "/opt/bap"; None] [ASKBTN_CANCEL; ASKBTN_NO]
             "o" "s" "h" "/bin/ls" EmptyString false) ∅
        = (tr, Waiting)
        ∧ ∀ argument_string no_extras,
            run_bap_with
              (World (Fails OSError) (Fails OSError) (λ _, false)
                 [Some "/opt/bap"; None] [ASKBTN_CANCEL; ASKBTN_NO]
                 "o" "s" "h" "/bin/ls" EmptyString false) ∅
              argument_string no_extras
            = (tr, Waiting).
Proof.
  apply (loop_waits_for_a_decision _ ∅
           [CheckOutput which_argv; CheckOutput opam_argv] EmptyString).
  - reflexivity.
  - reflexivity.
  - simpl. absent.
  - intros p Hin. unfold valid_path. simpl. apply andb_false_r.
Defined.

(** ** The suggestion *)

Lemma loop_body_no_askfile (w : world) reply yns tr s yns' :
  loop_body w reply yns = (tr, s, yns') →
  Forall (λ e, match e with
               | AskFile _ _ | CheckOutput _ => False
               | _ => True
               end) tr.
Proof.
  unfold loop_body, soft_check, confirm. intros H.
  repeat case_match; simplify_eq/=; by repeat constructor.
Qed.

(** Every file dialog of the loop shows the same suggestion, and the
    loop runs no probe. *)
Lemma ask_loop_dialogs (w : world) (d : string) files :
  ∀ yns,
    Forall (λ e, match e with
                 | AskFile d' title => d' = d ∧ title = "Path to bap"
                 | CheckOutput _ => False
                 | _ => True
                 end) (fst (ask_loop w d files yns)).
Proof.
  induction files as [|reply files IH]; intros yns; simpl.
  - by repeat constructor.
  - destruct (loop_body w reply yns) as [[tr s] yns'] eqn:Hb.
    apply loop_body_no_askfile in Hb.
    assert (Forall (λ e, match e with
                         | AskFile d' title => d' = d ∧ title = "Path to bap"
                         | CheckOutput _ => False
                         | _ => True
                         end) tr) as Htr.
    { eapply Forall_impl; [exact Hb|]. by intros []. }
    destruct s; simpl; try by constructor.
    specialize (IH yns').
    destruct (ask_loop w d files yns') as [tr' e]; simpl in *.
    constructor; [done|]. by apply Forall_app.
Qed.

Lemma plausible_cases (s : string) :
  plausible s = EmptyString ∨ endswith (plausible s) "bap" = true.
Proof.
  unfold plausible. destruct (endswith s "bap") eqn:E; [by right|by left].
Qed.

(** X4.  Whatever the probes print, a file dialog of the resolver shows
    either no suggestion or one that ends with [bap], under the title
    [Path to bap]; all dialogs of one pass show the same suggestion. *)
Theorem suggestion_is_empty_or_bap (w : world) (c : Config.store) :
  ∃ d, (d = EmptyString ∨ endswith d "bap" = true)
       ∧ ∀ d' title, AskFile d' title ∈ fst (check_and_configure_bap w c) →
                     d' = d ∧ title = "Path to bap".
Proof.
  assert (∀ tr o, config_path w c = (tr, o) →
            fst (check_and_configure_bap w c) = tr) as Hfst.
  { intros tr o H. unfold check_and_configure_bap. rewrite H.
    by destruct o. }
  unfold config_path in Hfst.
  destruct (Config.get path_key None None c).
  { exists EmptyString. split; [by left|]. intros d' title.
    rewrite (Hfst _ _ eq_refl). by intros ?%elem_of_nil. }
  destruct (discover w) as [tr0 o] eqn:Hd.
  assert (∀ d' title, AskFile d' title ∉ tr0) as Hprobes.
  { intros d' title Hin. revert Hd Hin. unfold discover.
    repeat case_match; intros [= <- _]; absent. }
  destruct o as [d|e|].
  - exists d. split.
    { revert Hd. unfold discover.
      repeat case_match; intros [= _ <-]; apply plausible_cases. }
    pose proof (ask_loop_dialogs w d (file_replies w) (yn_replies w)) as Hl.
    destruct (ask_loop w d (file_replies w) (yn_replies w)) as [tr1 e] eqn:E.
    simpl in Hl. rewrite Forall_forall in Hl.
    assert (fst (check_and_configure_bap w c) = tr0 ++ tr1) as ->
      by (destruct e; by erewrite Hfst).
    intros d' title [Hin|Hin]%elem_of_app; [by apply Hprobes in Hin|].
    exact (Hl _ Hin).
  - exists EmptyString. split; [by left|]. intros d' title.
    rewrite (Hfst _ _ eq_refl). by intros ?%Hprobes.
  - exists EmptyString. split; [by left|]. intros d' title.
    rewrite (Hfst _ _ eq_refl). by intros ?%Hprobes.
Qed.

Lemma ends_with_bap_not_empty (s : string) :
  endswith s "bap" = true → s ≠ EmptyString.
Proof. by intros H ->. Qed.

(** X5.  [opam] is asked only after [which] has failed, and only when
    no path is configured.  What [opam] prints is never dropped: with
    [bap] joined to it the suggestion ends with [bap], so the test of
    line 38 lets it pass, even when [opam] printed nothing. *)
Theorem opam_probe_only_after_which_failed (w : world) (c : Config.store) :
  (CheckOutput opam_argv ∈ fst (check_and_configure_bap w c)
   ↔ Config.get path_key None None c = None
     ∧ ∃ e, which_bap w = Fails e)
  ∧ ∀ e out, which_bap w = Fails e → opam_bap_bin w = Output out →
      snd (discover w) = Returned (path_join (strip out) "bap")
      ∧ path_join (strip out) "bap" ≠ EmptyString.
Proof.
  split.
  - assert (∀ tr o, config_path w c = (tr, o) →
              fst (check_and_configure_bap w c) = tr) as Hfst.
    { intros tr o H. unfold check_and_configure_bap. rewrite H.
      by destruct o. }
    unfold config_path in Hfst.
    destruct (Config.get path_key None None c) as [p|].
    { rewrite (Hfst _ _ eq_refl). split; [by intros ?%elem_of_nil|].
      by intros [? _]. }
    assert (∃ tr1, fst (check_and_configure_bap w c)
                   = fst (discover w) ++ tr1
                   ∧ CheckOutput opam_argv ∉ tr1) as (tr1 & -> & Hno).
    { destruct (discover w) as [tr0 [d|e|]] eqn:Hd.
      - pose proof (ask_loop_dialogs w d (file_replies w) (yn_replies w))
          as Hl.
        destruct (ask_loop w d (file_replies w) (yn_replies w))
          as [tr1 e] eqn:E.
        exists tr1. split; [destruct e; by erewrite Hfst|].
        simpl in Hl. rewrite Forall_forall in Hl.
        intros Hin. exact (Hl _ Hin).
      - exists []. rewrite (Hfst _ _ eq_refl), app_nil_r.
        split; [done|apply not_elem_of_nil].
      - exists []. rewrite (Hfst _ _ eq_refl), app_nil_r.
        split; [done|apply not_elem_of_nil]. }
    rewrite elem_of_app. unfold discover.
    destruct (which_bap w) as [out|e].
    + simpl. split.
      * intros [Hin|Hin]; [|done]. exfalso. revert Hin.
        unfold opam_argv, which_argv. absent.
      * by intros [_ [e ?]].
    + split; [eauto|]. intros _. left.
      destruct (opam_bap_bin w) as [|[|]]; simpl;
        apply elem_of_cons; right; by left.
  - intros e out Hw Ho. unfold discover. rewrite Hw, Ho. simpl.
    unfold plausible. rewrite path_join_bap. split; [done|].
    apply ends_with_bap_not_empty, path_join_bap.
Qed.

(** ** Runs *)

Lemma run_returned (w : world) (c c' : Config.store) tr args mode :
  run_bap_with w c args mode = (tr, Returned c') →
  ∃ tr0, check_and_configure_bap w c = (tr0, Returned c').
Proof.
  unfold run_bap_with.
  destruct (check_and_configure_bap w c) as [tr0 [c1|e|]]; [|done..].
  destruct (Config.get path_key None None c1); intros [= _ <-]; eauto.
Qed.

(** X6.  The user is asked once.  After a run that returned with the
    executable path set, every later run from the store it left, in any
    surroundings, with any arguments and in either mode, goes straight to
    staging: no probe, no dialog, the store unchanged. *)
Theorem later_runs_ask_nothing (w : world) (c c' : Config.store)
  (tr : list event) (exe args : string) (mode : bool) :
  run_bap_with w c args mode = (tr, Returned c') →
  Config.get path_key None None c' = Some exe →
  ∀ w' args' mode',
    run_bap_with w' c' args' mode'
    = (staged_run w' c' exe args' mode', Returned c')
    ∧ Forall (λ e, classify e ≠ Dialog ∧ is_probe e = false)
        (staged_run w' c' exe args' mode').
Proof.
  intros [tr0 (c1 & _ & ->)%check_returned]%run_returned Hp w' args' mode'.
  assert (check_and_configure_bap w' (config_bap_api c1)
          = ([], Returned (config_bap_api c1))) as Hcheck.
  { unfold check_and_configure_bap, config_path.
    by rewrite Hp, config_bap_api_twice. }
  split.
  - by rewrite (run_path_set _ _ _ _ _ _ _ Hcheck Hp).
  - unfold staged_run.
    destruct mode', (bap_api_enabled (config_bap_api c1)), (view_open w');
      simpl; repeat constructor; done.
Qed.

Lemma later_runs_ask_nothing_witness :
  run_bap_with declining_world
    (config_bap_api (Config.set path_key "/usr/bin/bap" None ∅))
    "--help" false
  = (staged_run declining_world
       (config_bap_api (Config.set path_key "/usr/bin/bap" None ∅))
       "/usr/bin/bap" "--help" false,
     Returned (config_bap_api (Config.set path_key "/usr/bin/bap" None ∅)))
  ∧ Forall (λ e, classify e ≠ Dialog ∧ is_probe e = false)
      (staged_run declining_world
         (config_bap_api (Config.set path_key "/usr/bin/bap" None ∅))
         "/usr/bin/bap" "--help" false).
Proof.
  exact (later_runs_ask_nothing accepting_world ∅ _ _ "/usr/bin/bap"
           "-analyze" true eq_refl eq_refl declining_world "--help" false).
Defined.

(** X7.  A run either stops at the configuration check or stages.  When
    the resolver does not return, or returns with the path unset, the run
    ends as the resolver did, with the resolver's events and nothing
    else: no temporary file, no command.  Otherwise its events are the
    resolver's followed by the staged run. *)
Theorem run_stops_or_stages (w : world) (c : Config.store)
  (args : string) (mode : bool) :
  (run_bap_with w c args mode = check_and_configure_bap w c
   ∧ Forall (λ e, is_exec e = false ∧ is_mkstemp e = false)
       (fst (run_bap_with w c args mode))
   ∧ ∀ c', snd (check_and_configure_bap w c) = Returned c' →
           Config.get path_key None None c' = None)
  ∨ (∃ tr c' exe,
       check_and_configure_bap w c = (tr, Returned c')
       ∧ Config.get path_key None None c' = Some exe
       ∧ run_bap_with w c args mode
         = (tr ++ staged_run w c' exe args mode, Returned c')).
Proof.
  pose proof (check_events w c) as Hev.
  assert (Forall (λ e, is_exec e = false ∧ is_mkstemp e = false)
            (fst (check_and_configure_bap w c))) as Hquiet.
  { eapply Forall_impl; [exact Hev|]. apply resolver_event_quiet. }
  unfold run_bap_with.
  destruct (check_and_configure_bap w c) as [tr [c'|e|]] eqn:Hc.
  - destruct (Config.get path_key None None c') as [exe|] eqn:Hp.
    + right. by exists tr, c', exe.
    + left. split; [done|]. split; [done|]. by intros ? [= <-].
  - left. split; [done|]. split; [done|]. by intros ? [=].
  - left. split; [done|]. split; [done|]. by intros ? [=].
Qed.

(** ** The staged run *)

(** X8.  Full mode with the API switch read as on: the work of the run
    is, in this order, the export of the symbols, the export of the
    header, the [--api-add] call, the main command, the [--api-remove]
    call and the removal. *)
Theorem api_on_run_order (w : world) (c c' : Config.store)
  (tr : list event) (exe argument_string : string) :
  check_and_configure_bap w c = (tr, Returned c') →
  Config.get path_key None None c' = Some exe →
  bap_api_enabled c' = true →
  let a := make_args w exe argument_string in
  List.filter is_work (fst (run_bap_with w c argument_string false))
  = [DumpSymbolInfo (symbol_file_location a); DumpCHeader (header_path a);
     Exec (api_add_command a); Exec (full_command a);
     Exec (api_remove_command a); Exec (cleanup_command a)].
Proof.
  intros Hrun Hp Hon a.
  pose proof (check_events w c) as Hev. rewrite Hrun in Hev. simpl in Hev.
  rewrite (run_path_set _ _ _ _ _ _ _ Hrun Hp). simpl.
  rewrite List.filter_app.
  rewrite (resolver_filter is_work tr); [|by intros []|done].
  unfold staged_run. rewrite Hon. by destruct (view_open w).
Qed.

Lemma api_on_run_order_witness :
  let a := make_args accepting_world "/usr/bin/bap" "-analyze" in
  List.filter is_work (fst (run_bap_with accepting_world ∅ "-analyze" false))
  = [DumpSymbolInfo (symbol_file_location a); DumpCHeader (header_path a);
     Exec (api_add_command a); Exec (full_command a);
     Exec (api_remove_command a); Exec (cleanup_command a)].
Proof.
  exact (api_on_run_order accepting_world ∅ _ _ "/usr/bin/bap" "-analyze"
           eq_refl eq_refl eq_refl).
Defined.

(** X9.  Minimal mode does not look at the API switch and exports
    nothing: whatever the store says, the work of the run is the minimal
    command and the removal; the three temporary files are made all the
    same and the view is still updated with the report. *)
Theorem minimal_run_work (w : world) (c c' : Config.store)
  (tr : list event) (exe argument_string : string) :
  check_and_configure_bap w c = (tr, Returned c') →
  Config.get path_key None None c' = Some exe →
  let a := make_args w exe argument_string in
  let run := fst (run_bap_with w c argument_string true) in
  List.filter is_work run
  = [Exec (minimal_command a); Exec (cleanup_command a)]
  ∧ List.filter is_mkstemp run
    = [Mkstemp ".out" "ida-bap-"; Mkstemp ".sym" "ida-bap-";
       Mkstemp ".h" "ida-bap-"]
  ∧ ViewUpdate (report (minimal_command a) (out_text w)) ∈ run.
Proof.
  intros Hrun Hp a run.
  pose proof (check_events w c) as Hev. rewrite Hrun in Hev. simpl in Hev.
  unfold run. rewrite (run_path_set _ _ _ _ _ _ _ Hrun Hp). simpl.
  rewrite !List.filter_app.
  rewrite (resolver_filter is_work tr); [|by intros []|done].
  rewrite (resolver_filter is_mkstemp tr resolver_no_mkstemp Hev).
  unfold staged_run. fold a.
  split; [by destruct (view_open w)|]. split; [by destruct (view_open w)|].
  apply elem_of_app. right. apply list_elem_of_In. simpl. auto 10.
Qed.

Lemma minimal_run_work_witness :
  let a := make_args accepting_world "/usr/bin/bap" "-analyze" in
  let run := fst (run_bap_with accepting_world api_off_store "-analyze" true) in
  List.filter is_work run
  = [Exec (minimal_command a); Exec (cleanup_command a)]
  ∧ List.filter is_mkstemp run
    = [Mkstemp ".out" "ida-bap-"; Mkstemp ".sym" "ida-bap-";
       Mkstemp ".h" "ida-bap-"]
  ∧ ViewUpdate (report (minimal_command a) (out_text accepting_world)) ∈ run.
Proof.
  exact (minimal_run_work accepting_world api_off_store api_off_store []
           "/usr/bin/bap" "-analyze" eq_refl eq_refl).
Defined.

(** ** The API switch *)

Lemma lower_char_twice (c : ascii) : lower_char (lower_char c) = lower_char c.
Proof. destruct c as [[] [] [] [] [] [] [] []]; reflexivity. Qed.

Lemma lower_twice (s : string) : lower (lower s) = lower s.
Proof.
  induction s as [|c s IH]; simpl; [done|].
  by rewrite lower_char_twice, IH.
Qed.

Lemma get_or_set_same (c : Config.store) key value default section :
  Config.get_or key default section (Config.set key value section c) = value.
Proof. unfold Config.get_or, Config.set. by rewrite lookup_insert_eq. Qed.

(** X10.  A store in which [enabled] was never set: once the resolver
    has returned, the switch reads as on, so the first full run makes the
    API calls.  Before the resolver has run, the same store reads as off,
    by the ['0'] of line 118. *)
Theorem unset_switch_reads_on_after_resolver (w : world)
  (c c' : Config.store) (tr : list event) :
  Config.get enabled_key None api_section c = None →
  check_and_configure_bap w c = (tr, Returned c') →
  bap_api_enabled c = false ∧ bap_api_enabled c' = true.
Proof.
  intros Hnone (c1 & Hc1 & ->)%check_returned. split.
  - unfold bap_api_enabled. by rewrite (get_or_absent _ _ _ _ Hnone).
  - rewrite <- (config_path_keeps_enabled _ _ _ _ Hc1) in Hnone.
    unfold config_bap_api. rewrite Hnone.
    unfold bap_api_enabled. by rewrite get_or_set_same.
Qed.

Lemma unset_switch_reads_on_after_resolver_witness :
  bap_api_enabled ∅ = false
  ∧ bap_api_enabled
      (config_bap_api (Config.set path_key "/usr/bin/bap" None ∅)) = true.
Proof.
  exact (unset_switch_reads_on_after_resolver accepting_world ∅ _ _
           eq_refl eq_refl).
Defined.

(** X11.  The switch is read without regard to case: a stored value and
    its lower-case form switch the API the same way, and the API is on
    exactly when the lower-case form is [1], [true] or [yes]. *)
Theorem switch_ignores_case (c : Config.store) (v : string) :
  bap_api_enabled (Config.set enabled_key v api_section c)
  = bap_api_enabled (Config.set enabled_key (lower v) api_section c)
  ∧ (bap_api_enabled (Config.set enabled_key v api_section c) = true
     ↔ lower v = "1" ∨ lower v = "true" ∨ lower v = "yes").
Proof.
  unfold bap_api_enabled. rewrite !get_or_set_same, lower_twice.
  split; [done|].
  rewrite bool_decide_eq_true, !elem_of_cons, elem_of_nil. tauto.
Qed.

(** ** The report *)

Lemma of_chars_app (l1 l2 : list ascii) :
  of_chars (l1 ++ l2) = of_chars l1 +:+ of_chars l2.
Proof.
  unfold of_chars. induction l1 as [|x l1 IH]; simpl; [done|].
  by rewrite IH.
Qed.

Lemma of_chars_chars (s : string) : of_chars (chars s) = s.
Proof. apply String.string_of_list_ascii_of_string. Qed.

Lemma split_dashes_go_join (l : list ascii) :
  ∀ cur,
    split_dashes_go cur l ≠ []
    ∧ join "--" (split_dashes_go cur l) = of_chars (rev cur ++ l).
Proof.
  remember (length l) as n eqn:Hn. revert l Hn.
  induction n as [n IH] using lt_wf_ind. intros l Hn cur.
  destruct l as [|c [|d l]].
  - simpl. by rewrite app_nil_r.
  - by simpl.
  - change (split_dashes_go cur (c :: d :: l))
      with (if bool_decide (c = "-"%char) && bool_decide (d = "-"%char)
            then of_chars (rev cur) :: split_dashes_go [] l
            else split_dashes_go (c :: cur) (d :: l)).
    destruct (bool_decide (c = "-"%char) && bool_decide (d = "-"%char))
      eqn:Hdash.
    + apply andb_true_iff in Hdash as [->%bool_decide_eq_true
                                         ->%bool_decide_eq_true].
      destruct (IH (length l) ltac:(simpl in Hn; lia) l eq_refl [])
        as [Hne Hjoin].
      split; [done|].
      destruct (split_dashes_go [] l) as [|piece rest] eqn:E; [done|].
      change (join "--" (of_chars (rev cur) :: piece :: rest))
        with (of_chars (rev cur) +:+ "--" +:+ join "--" (piece :: rest)).
      rewrite Hjoin. change (rev [] ++ l) with l.
      rewrite (of_chars_app (rev cur)). reflexivity.
    + destruct (IH (length (d :: l)) ltac:(simpl in *; lia) (d :: l)
                  eq_refl (c :: cur)) as [Hne Hjoin].
      split; [done|]. rewrite Hjoin. simpl. by rewrite <- app_assoc.
Qed.

Lemma split_dashes_go_plain (l : list ascii) :
  ∀ cur,
    occurs (chars "--") l = false →
    split_dashes_go cur l = [of_chars (rev cur ++ l)].
Proof.
  remember (length l) as n eqn:Hn. revert l Hn.
  induction n as [n IH] using lt_wf_ind. intros l Hn cur Hno.
  destruct l as [|c [|d l]].
  - simpl. by rewrite app_nil_r.
  - by simpl.
  - change (split_dashes_go cur (c :: d :: l))
      with (if bool_decide (c = "-"%char) && bool_decide (d = "-"%char)
            then of_chars (rev cur) :: split_dashes_go [] l
            else split_dashes_go (c :: cur) (d :: l)).
    change (occurs (chars "--") (c :: d :: l))
      with (bool_decide ("-"%char = c) && (bool_decide ("-"%char = d) && true)
            || occurs (chars "--") (d :: l)) in Hno.
    apply orb_false_iff in Hno as [Hhere Hrest].
    assert (bool_decide (c = "-"%char) && bool_decide (d = "-"%char) = false)
      as ->.
    { rewrite andb_true_r in Hhere.
      rewrite (bool_decide_ext (c = "-"%char) ("-"%char = c)) by done.
      by rewrite (bool_decide_ext (d = "-"%char) ("-"%char = d)). }
    rewrite (IH (length (d :: l)) ltac:(simpl in *; lia) (d :: l)
               eq_refl (c :: cur) Hrest).
    simpl. by rewrite <- app_assoc.
Qed.

(** X12.  Splitting at [--] and joining with [--] gives the string
    back, so the transcript in the report is the stripped command with
    each [--] moved to a line of its own and nothing lost; a command
    without [--] is shown as it is. *)
Theorem transcript_keeps_the_command (s : string) :
  join "--" (split_dashes s) = s
  ∧ (contains s "--" = false → split_dashes s = [s])
  ∧ ∀ command output,
      s = strip command → contains s "--" = false →
      report command output
      = "BAP execution string" +:+ nl +:+ "--------------------" +:+ nl
        +:+ nl +:+ s +:+ nl +:+ nl
        +:+ "Output" +:+ nl +:+ "------" +:+ nl +:+ nl +:+ output.
Proof.
  assert (contains s "--" = false → split_dashes s = [s]) as Hplain.
  { unfold split_dashes, contains.
    intros Hno. rewrite (split_dashes_go_plain _ [] Hno).
    simpl. by rewrite of_chars_chars. }
  split; [|split; [done|]].
  - unfold split_dashes.
    destruct (split_dashes_go_join (chars s) []) as [_ ->].
    apply of_chars_chars.
  - intros command output -> Hno. unfold report.
    by rewrite (Hplain Hno).
Qed.

(** ** The store after the resolver *)

(** X13.  The resolver gives up on the path only on the user's word:
    when it returns with a path still unset, the user has dismissed the
    file dialog and answered YES to the question whether no path is to be
    set, and that question is the last thing the resolver did. *)
Theorem unset_path_was_confirmed (w : world) (c c' : Config.store)
  (tr : list event) :
  check_and_configure_bap w c = (tr, Returned c') →
  Config.get path_key None None c' = None →
  None ∈ file_replies w ∧ ASKBTN_YES ∈ yn_replies w
  ∧ ∃ d before, tr = before ++ [AskFile d "Path to bap"; AskYN msg_unset].
Proof.
  intros (c1 & Hc1 & ->)%check_returned Hp.
  rewrite config_bap_api_path in Hp.
  apply config_path_returned in Hc1
    as [(-> & _ & [p Hp'])
       |(_ & tr0 & d & tr1 & Hd & -> & [[Hl ->]|(q & Hl & ->)])].
  - congruence.
  - apply ask_loop_declined in Hl as (Hin & Hyes & [before ->]).
    split; [done|]. split; [done|].
    exists d, (tr0 ++ before). by rewrite app_assoc.
  - by rewrite get_set_same in Hp.
Qed.

Lemma unset_path_was_confirmed_witness :
  None ∈ file_replies declining_world
  ∧ ASKBTN_YES ∈ yn_replies declining_world
  ∧ ∃ d before,
      [CheckOutput which_argv; CheckOutput opam_argv;
       AskFile EmptyString "Path to bap"; AskYN msg_unset;
       AskFile EmptyString "Path to bap"; AskYN msg_unset]
      = before ++ [AskFile d "Path to bap"; AskYN msg_unset].
Proof.
  exact (unset_path_was_confirmed declining_world ∅ _ _ eq_refl eq_refl).
Defined.

(** X14.  The resolver and the run write two entries of the store and
    no other: every entry but [bap_executable_path] of the default
    section and [enabled] of section [bap_api] is after the call what it
    was before. *)
Theorem other_entries_untouched (w : world) (c c' : Config.store)
  (tr : list event) (args : string) (mode : bool) :
  run_bap_with w c args mode = (tr, Returned c') →
  ∀ section key,
    (section, key) ≠ (None, path_key) →
    (section, key) ≠ (api_section, enabled_key) →
    c' !! (section, key) = c !! (section, key).
Proof.
  intros [tr0 (c1 & Hc1 & ->)%check_returned]%run_returned
    section key Hpath Hapi.
  assert (config_bap_api c1 !! (section, key) = c1 !! (section, key)) as ->.
  { unfold config_bap_api.
    destruct (Config.get enabled_key None api_section c1); [done|].
    unfold Config.set. by rewrite lookup_insert_ne. }
  apply config_path_returned in Hc1
    as [(-> & _ & _)
       |(_ & tr1 & d & tr2 & _ & _ & [[_ ->]|(q & _ & ->)])];
    try done.
  unfold Config.set. by rewrite lookup_insert_ne.
Qed.

Lemma other_entries_untouched_witness :
  config_bap_api
    (Config.set path_key "/usr/bin/bap" None (Config.set "theme" "dark" None ∅))
    !! (None, "theme")
  = Config.set "theme" "dark" None ∅ !! (None, "theme").
Proof.
  apply (other_entries_untouched accepting_world
           (Config.set "theme" "dark" None ∅) _
           (fst (run_bap_with accepting_world
                   (Config.set "theme" "dark" None ∅) "-analyze" true))
           "-analyze" true).
  - reflexivity.
  - discriminate.
  - discriminate.
Defined.

(** ** The full command *)

Lemma occurs_starts (p l : list ascii) :
  starts p l = true → occurs p l = true.
Proof. intros H. destruct l; simpl; by rewrite H. Qed.

(** X15.  The full command always carries the three options of the
    template, the symbol file between quotes right after
    [--read-symbols-from=], and the caller's arguments as they were
    given; the minimal command carries the arguments too. *)
Theorem full_command_carries_flags (a : run_args) :
  Forall (λ flag, contains (full_command a) flag = true) extra_flags
  ∧ contains (full_command a)
      ("--read-symbols-from=" +:+ quoted (symbol_file_location a)) = true
  ∧ contains (full_command a) (remaining_args a) = true
  ∧ contains (minimal_command a) (remaining_args a) = true.
Proof.
  unfold contains, full_command, minimal_command, extra_flags.
  rewrite !chars_app.
  repeat first [split | constructor];
    repeat first [apply occurs_here
                 | rewrite app_assoc; apply occurs_here
                 | apply occurs_starts; reflexivity
                 | apply occurs_skip].
Qed.
